(** * Emigo orchestrator: worker supervision, message router, interaction gate

    A shallow embedding of [src/emigo.py] (class [Emigo]) and the properties
    of its worker life cycle, of the queue between the stdout pump and the
    message router, and of the gate that admits one interaction at a time.

    Conventions of the embedding.
    - A method of [Emigo] is a computation in the monad [M]: it threads the
      orchestrator state and ends by returning, by raising a Python
      exception, or by blocking for ever on [llm_worker_lock].
    - What the environment decides (does the spawned process survive, does
      the write succeed, what does the user answer) is an argument of the
      method, a record named [...Env].
    - JSON text is not parsed here: [json.loads] is a field of [World], with
      the other functions the file imports from elsewhere.
    - Debugging prints are left out; the warnings and errors the code prints
      to stderr are the constructors of [LogLine].
    - Ghost fields ([q_gen], [generation], [live_readers], [stray_routers])
      record which worker process a queued line came from and which threads
      still run.  No function of the model reads them to decide anything:
      the source has no such tag. *)

From Stdlib Require Import ZArith String Ascii List Bool Lia.
From stdpp Require Import base strings gmap list pretty.

Local Open Scope string_scope.
Local Open Scope list_scope.

(** ** JSON values, with Python's view of them *)

Module Json.

(** What [json.loads] returns.  Numbers are integers; a dict is the list
    of its items in insertion order, each key at most once. *)
Local Unset Elimination Schemes.
Inductive JValue : Type :=
| JNull
| JBool (b : bool)
| JNum (n : Z)
| JStr (s : string)
| JList (l : list JValue)
| JDict (d : list (string * JValue)).
Local Set Elimination Schemes.

(** [bool(v)] *)
Definition truthy (v : JValue) : bool :=
  match v with
  | JNull => false
  | JBool b => b
  | JNum n => negb (n =? 0)%Z
  | JStr s => negb (String.eqb s "")
  | JList l => match l with [] => false | _ => true end
  | JDict d => match d with [] => false | _ => true end
  end.

(** [v == s] for a string literal [s] *)
Definition is_str (v : JValue) (s : string) : bool :=
  match v with
  | JStr s' => String.eqb s' s
  | _ => false
  end.

(** [isinstance(v, list)] *)
Definition is_list (v : JValue) : bool :=
  match v with JList _ => true | _ => false end.

(** [isinstance(v, str)] *)
Definition is_string (v : JValue) : bool :=
  match v with JStr _ => true | _ => false end.

(** [k in d] and [d.get(k)] on the items of a dict *)
Fixpoint lookup_item (k : string) (d : list (string * JValue)) : option JValue :=
  match d with
  | [] => None
  | (k', v) :: d' => if String.eqb k' k then Some v else lookup_item k d'
  end.

(** [d.get(k, default)] *)
Definition get_default (k : string) (default : JValue)
           (d : list (string * JValue)) : JValue :=
  match lookup_item k d with
  | Some v => v
  | None => default
  end.

(** [d.get(k)] *)
Definition get (k : string) (d : list (string * JValue)) : JValue :=
  get_default k JNull d.

(** [d[k] = v]: the key keeps its place when it is there already *)
Fixpoint set_item (k : string) (v : JValue) (d : list (string * JValue))
  : list (string * JValue) :=
  match d with
  | [] => [(k, v)]
  | (k', v') :: d' =>
      if String.eqb k' k then (k', v) :: d' else (k', v') :: set_item k v d'
  end.

(** [type(v).__name__] *)
Definition py_class (v : JValue) : string :=
  match v with
  | JNull => "NoneType"
  | JBool _ => "bool"
  | JNum _ => "int"
  | JStr _ => "str"
  | JList _ => "list"
  | JDict _ => "dict"
  end.

(** The newline character, for the texts that contain one. *)
Definition nl : string := String (ascii_of_nat 10) "".

(** [None] of Python for an absent string *)
Definition of_option (o : option string) : JValue :=
  match o with
  | Some s => JStr s
  | None => JNull
  end.

(** ['/' in s] *)
Fixpoint contains_slash (s : string) : bool :=
  match s with
  | EmptyString => false
  | String c s' => if Ascii.eqb c "/"%char then true else contains_slash s'
  end.

End Json.
Export Json.

(** ** The session record *)

Definition Timestamp := Z.

(** Modelled from the spec: the class [Context] of [context.py], which is
  not part of the sources.  The spec's session has an identifier, an
  ordered sequence of timestamped messages, a set of chat files, a
  cache-validity flag and a verbosity flag. *)
Record Context : Type := mkContext {
session_path : string;
history : list (Timestamp * JValue);
chat_files : list string;
cache_valid : bool;
verbose : bool
}.

Module Ctx.

(** Modelled from the spec: [Context(session_path=p, verbose=v)], a
    session created on first reference, with nothing in it. *)
Definition new (p : string) (v : bool) : Context :=
  mkContext p [] [] false v.

(** Modelled from the spec: [set_history] replaces the history wholesale;
    the entries are stamped when they are stored. *)
Definition set_history (now : Timestamp) (msgs : list JValue) (c : Context) : Context :=
  mkContext (session_path c) (map (fun m => (now, m)) msgs)
            (chat_files c) (cache_valid c) (verbose c).

(** Modelled from the spec: [append_history] adds one stamped turn. *)
Definition append_history (now : Timestamp) (m : JValue) (c : Context) : Context :=
  mkContext (session_path c) (history c ++ [(now, m)])
            (chat_files c) (cache_valid c) (verbose c).

(** Modelled from the spec: [invalidate_cache] clears the validity flag. *)
Definition invalidate_cache (c : Context) : Context :=
  mkContext (session_path c) (history c) (chat_files c) false (verbose c).

(** Modelled from the spec: what [generate_context_string] may change in
    the session is the set of chat files (file mentions of a fresh prompt)
    and the cache flag, never the history. *)
Definition with_files (fs : list string) (cv : bool) (c : Context) : Context :=
  mkContext (session_path c) (history c) fs cv (verbose c).

(** The message dicts of a history, without their timestamps. *)
Definition messages (c : Context) : list JValue := map snd (history c).

End Ctx.

(** ** The functions the file imports *)

(** [json.loads], [str], [str.strip], [os.path.isdir], [_filter_context] of
  [utils.py] and [Context.generate_context_string] are not defined in
  [emigo.py]; the model is parametric in them. *)
Record World : Type := mkWorld {
json_loads : string -> option JValue;      (* None: JSONDecodeError *)
py_str : JValue -> string;                 (* str(v), also in f-strings *)
strip : string -> string;                  (* line.strip() *)
fs_isdir : string -> bool;                 (* os.path.isdir on a non-empty path *)
_filter_context : JValue -> JValue;
generate_context_string :
  option string -> Context -> string * list string * bool
}.

(** [os.path.isdir(p)]: the empty path is no directory. *)
Definition isdir (W : World) (p : string) : bool :=
if String.eqb p "" then false else fs_isdir W p.

(** ** The orchestrator's state *)

(** [subprocess.Popen] as [_start_llm_worker] creates it: three pipes, so
    [stdin] and [stdout] are always there. *)
Record Popen : Type := mkPopen {
  pid : nat;                     (* which spawn this is *)
  returncode : option Z;         (* poll(): None while the process runs *)
  stdin_closed : bool;
  stdin_written : list JValue    (* one JSON value per line written *)
}.

(** An entry of [worker_output_queue]: a stripped line, or the sentinel
    [None].  [q_gen] is ghost: the spawn whose pump (or whose supervisor)
    put the entry. *)
Record QItem : Type := mkQItem {
  q_gen : nat;
  q_line : option string
}.

(** Calls into the front end ([utils.py]), in the order they are made. *)
Inductive EmacsCall : Type :=
| eval_in_emacs (f : string) (args : list JValue)
| message_emacs (text : string)
| get_emacs_func_result (f : string) (arg : string)
| get_emacs_vars (names : list string).

(** Python exceptions the modelled code can raise or catch. *)
Inductive Exn : Type :=
| JSONDecodeError
| AttributeError (ty : string)   (* .get on a value of class ty, which is no dict *)
| TypeError                      (* a path that is no string *)
| OtherError (e : string).

(** The warnings and errors printed to stderr. *)
Inductive LogLine : Type :=
| LogAlreadyRunning
| LogExitedImmediately (code : Z)
| LogStartFailed (e : string)
| LogReaderThreadFailed
| LogStderrThreadFailed
| LogKilling
| LogStopError (e : string)
| LogProcessorNotExited
| LogStdoutError
| LogSignalEnd
| LogStdoutUnavailable
| LogRestartAttempt
| LogRestartFailed
| LogSendError (e : string)
| LogSendUnexpected (e : string)
| LogNotRunning
| LogQueueStopped
| LogMissingSession (message : JValue)
| LogInvalidJSON (line : string)
| LogProcessingError (e : Exn)
| LogInvalidContextPath (p : string)
| LogNoContext (p : string)
| LogNoFinalHistory (session : JValue)
| LogWorkerError (session : JValue) (message : JValue)
| LogDeclined (p : string)
| LogConfirmError (e : Exn)
| LogVarsFailed
| LogInvalidModel
| LogRestartAfterCancelFailed
| LogProcessorRestartFailed
| LogLastNotUser (p : string)
| LogHistoryEmpty (p : string)
| LogNoContextAfterCancel (p : string).

Record Emigo : Type := mkEmigo {
  sessions : gmap string Context;
  llm_worker_process : option Popen;
  worker_processor_thread : option bool;   (* Some alive, or None *)
  worker_output_queue : list QItem;
  active_interaction_session : option string;
  llm_worker_lock : bool;                  (* held *)
  clock : Timestamp;                       (* what time.time() returns next *)
  emacs : list EmacsCall;
  stderr : list LogLine;
  generation : nat;                        (* ghost: processes spawned so far *)
  live_readers : list nat;                 (* ghost: spawns whose pump still runs *)
  stray_routers : nat                      (* ghost: router loops no thread handle names *)
}.

(** [Emigo.__init__] before it starts the worker. *)
Definition empty_state : Emigo :=
  mkEmigo ∅ None None [] None false 0%Z [] [] 0 [] 0.

Definition set_sessions (x : gmap string Context) (st : Emigo) : Emigo :=
  mkEmigo x (llm_worker_process st) (worker_processor_thread st)
    (worker_output_queue st) (active_interaction_session st) (llm_worker_lock st)
    (clock st) (emacs st) (stderr st) (generation st) (live_readers st)
    (stray_routers st).

Definition set_process (x : option Popen) (st : Emigo) : Emigo :=
  mkEmigo (sessions st) x (worker_processor_thread st)
    (worker_output_queue st) (active_interaction_session st) (llm_worker_lock st)
    (clock st) (emacs st) (stderr st) (generation st) (live_readers st)
    (stray_routers st).

Definition set_processor (x : option bool) (st : Emigo) : Emigo :=
  mkEmigo (sessions st) (llm_worker_process st) x
    (worker_output_queue st) (active_interaction_session st) (llm_worker_lock st)
    (clock st) (emacs st) (stderr st) (generation st) (live_readers st)
    (stray_routers st).

Definition set_queue (x : list QItem) (st : Emigo) : Emigo :=
  mkEmigo (sessions st) (llm_worker_process st) (worker_processor_thread st)
    x (active_interaction_session st) (llm_worker_lock st)
    (clock st) (emacs st) (stderr st) (generation st) (live_readers st)
    (stray_routers st).

Definition set_active (x : option string) (st : Emigo) : Emigo :=
  mkEmigo (sessions st) (llm_worker_process st) (worker_processor_thread st)
    (worker_output_queue st) x (llm_worker_lock st)
    (clock st) (emacs st) (stderr st) (generation st) (live_readers st)
    (stray_routers st).

Definition set_lock (x : bool) (st : Emigo) : Emigo :=
  mkEmigo (sessions st) (llm_worker_process st) (worker_processor_thread st)
    (worker_output_queue st) (active_interaction_session st) x
    (clock st) (emacs st) (stderr st) (generation st) (live_readers st)
    (stray_routers st).

Definition set_clock (x : Timestamp) (st : Emigo) : Emigo :=
  mkEmigo (sessions st) (llm_worker_process st) (worker_processor_thread st)
    (worker_output_queue st) (active_interaction_session st) (llm_worker_lock st)
    x (emacs st) (stderr st) (generation st) (live_readers st)
    (stray_routers st).

Definition set_emacs (x : list EmacsCall) (st : Emigo) : Emigo :=
  mkEmigo (sessions st) (llm_worker_process st) (worker_processor_thread st)
    (worker_output_queue st) (active_interaction_session st) (llm_worker_lock st)
    (clock st) x (stderr st) (generation st) (live_readers st)
    (stray_routers st).

Definition set_stderr (x : list LogLine) (st : Emigo) : Emigo :=
  mkEmigo (sessions st) (llm_worker_process st) (worker_processor_thread st)
    (worker_output_queue st) (active_interaction_session st) (llm_worker_lock st)
    (clock st) (emacs st) x (generation st) (live_readers st)
    (stray_routers st).

Definition set_generation (x : nat) (st : Emigo) : Emigo :=
  mkEmigo (sessions st) (llm_worker_process st) (worker_processor_thread st)
    (worker_output_queue st) (active_interaction_session st) (llm_worker_lock st)
    (clock st) (emacs st) (stderr st) x (live_readers st)
    (stray_routers st).

Definition set_readers (x : list nat) (st : Emigo) : Emigo :=
  mkEmigo (sessions st) (llm_worker_process st) (worker_processor_thread st)
    (worker_output_queue st) (active_interaction_session st) (llm_worker_lock st)
    (clock st) (emacs st) (stderr st) (generation st) x
    (stray_routers st).

Definition set_strays (x : nat) (st : Emigo) : Emigo :=
  mkEmigo (sessions st) (llm_worker_process st) (worker_processor_thread st)
    (worker_output_queue st) (active_interaction_session st) (llm_worker_lock st)
    (clock st) (emacs st) (stderr st) (generation st) (live_readers st)
    x.

(** ** Methods as computations *)

(** How a call ends: it returns, an exception leaves it, or the calling
    thread waits for ever. *)
Inductive Outcome (A : Type) : Type :=
| Ret (a : A) (st : Emigo)
| Raise (e : Exn) (st : Emigo)
| Block (st : Emigo).
Arguments Ret {A} a st.
Arguments Raise {A} e st.
Arguments Block {A} st.

Definition M (A : Type) : Type := Emigo -> Outcome A.

#[global] Instance M_ret : MRet M := fun A a st => Ret a st.

#[global] Instance M_bind : MBind M := fun A B f m st =>
  match m st with
  | Ret a st' => f a st'
  | Raise e st' => Raise e st'
  | Block st' => Block st'
  end.

(** The state a call leaves behind, however it ended. *)
Definition final_state {A} (o : Outcome A) : Emigo :=
  match o with
  | Ret _ st => st
  | Raise _ st => st
  | Block st => st
  end.

Definition get_state : M Emigo := fun st => Ret st st.
Definition modify (f : Emigo -> Emigo) : M unit := fun st => Ret tt (f st).
Definition raise {A} (e : Exn) : M A := fun st => Raise e st.

(** [try: m except Exception as e: h e] *)
Definition try_except {A} (m : M A) (h : Exn -> M A) : M A := fun st =>
  match m st with
  | Raise e st' => h e st'
  | o => o
  end.

(** [with self.llm_worker_lock: m].  [threading.Lock] is not re-entrant:
    acquiring it while it is held waits until it is released, also when
    the holder is the caller itself. *)
Definition with_lock {A} (m : M A) : M A := fun st =>
  if llm_worker_lock st then Block st
  else match m (set_lock true st) with
       | Ret a st' => Ret a (set_lock false st')
       | Raise e st' => Raise e (set_lock false st')
       | Block st' => Block st'
       end.

Definition print (l : LogLine) : M unit :=
  modify (fun st => set_stderr (stderr st ++ [l]) st).

Definition call_emacs (c : EmacsCall) : M unit :=
  modify (fun st => set_emacs (emacs st ++ [c]) st).

(** [self.worker_output_queue.put(x)] *)
Definition put (it : QItem) : M unit :=
  modify (fun st => set_queue (worker_output_queue st ++ [it]) st).

(** [time.time()] *)
Definition tick : M Timestamp := fun st =>
  Ret (clock st) (set_clock (clock st + 1)%Z st).

(** [proc and proc.poll() is None] *)
Definition running (p : option Popen) : bool :=
  match p with
  | Some p => match returncode p with None => true | Some _ => false end
  | None => false
  end.

(** [self.active_interaction_session], as a condition *)
Definition active_truthy (st : Emigo) : bool :=
  match active_interaction_session st with
  | Some s => negb (String.eqb s "")
  | None => false
  end.

(** ** Session registry *)

Section Orchestrator.

Variable W : World.

(** [_get_or_create_context]: the session record of a directory, created
    on first reference; [None], and a message to the front end, for a path
    that is no directory. *)
Definition _get_or_create_context (p : string) : M (option Context) :=
  if negb (isdir W p) then
    print (LogInvalidContextPath p);;
    call_emacs (eval_in_emacs "message"
                  [JStr ("[Emigo Error] Invalid context path: " ++ p)]);;
    mret None
  else
    st ← get_state;
    match sessions st !! p with
    | Some c => mret (Some c)
    | None =>
        let c := Ctx.new p true in
        modify (set_sessions (<[p := c]> (sessions st)));;
        mret (Some c)
    end.

(** A method call on the session object stored under [p] (the object is
    shared: the registry sees the change). *)
Definition update_context (p : string) (f : Context -> Context) : M unit :=
  modify (fun st => set_sessions (alter f p (sessions st)) st).

(** ** Message router *)

(** [if self.active_interaction_session == session_path:
       self.active_interaction_session = None] *)
Definition clear_active_if (session : JValue) : M unit :=
  modify (fun st =>
    match active_interaction_session st, session with
    | Some a, JStr s => if String.eqb a s then set_active None st else st
    | _, _ => st
    end).

(** A value inside an f-string. *)
Definition fmt (v : JValue) : string :=
  match v with
  | JStr s => s
  | _ => py_str W v
  end.

(** One entry of [final_history] on its way into the stored history. *)
Definition filter_entry (msg : JValue) : JValue :=
  match msg with
  | JDict d =>
      match lookup_item "content" d with
      | Some c =>
          let c' := if is_string c then c else JStr (py_str W c) in
          JDict (set_item "content" (_filter_context W c') d)
      | None => msg
      end
  | _ => msg
  end.

(** The [stream] branch. *)
Definition route_stream (session : JValue) (d : list (string * JValue)) : M unit :=
  let role := get_default "role" (JStr "llm") d in
  let content := get_default "content" (JStr "") d in
  let filtered_content :=
    if negb (is_str role "tool_json_args") then _filter_context W content
    else content in
  if truthy filtered_content || is_str role "tool_json" then
    call_emacs (eval_in_emacs "emigo--flush-buffer"
                  [session; filtered_content; role])
  else mret tt.

(** The [finished] branch.  [_get_or_create_context] needs a path: a
    session that is no string raises there, as [os.path.isdir] does for a
    list, a dict or a float (an integer would be taken for a file
    descriptor; the model does not tell them apart). *)
Definition route_finished (session : JValue) (d : list (string * JValue)) : M unit :=
  let status := get_default "status" (JStr "unknown") d in
  clear_active_if session;;
  (if is_str status "success" || is_str status "max_turns_reached" then
     match get "final_history" d with
     | JList (m :: ms) =>
         match session with
         | JStr p =>
             context ← _get_or_create_context p;
             match context with
             | Some _ =>
                 now ← tick;
                 update_context p
                   (Ctx.set_history now (map filter_entry (m :: ms)))
             | None => print (LogNoContext p)
             end
         | _ => raise TypeError
         end
     | _ => print (LogNoFinalHistory session)
     end
   else mret tt);;
  call_emacs (eval_in_emacs "emigo--agent-finished" [session]).

(** The [error] branch. *)
Definition route_error (session : JValue) (d : list (string * JValue)) : M unit :=
  let error_msg := get_default "message" (JStr "Unknown error from worker") d in
  print (LogWorkerError session error_msg);;
  call_emacs (eval_in_emacs "emigo--flush-buffer"
                [session; JStr ("[Worker Error: " ++ fmt error_msg ++ "]");
                 JStr "error"]);;
  clear_active_if session.

(** The body of the [try] in [_process_worker_queue], after [json.loads]. *)
Definition route_message (message : JValue) : M unit :=
  match message with
  | JDict d =>
      let msg_type := get "type" d in
      let session := get "session" d in
      if negb (truthy session) then print (LogMissingSession message)
      else if is_str msg_type "stream" then route_stream session d
      else if is_str msg_type "finished" then route_finished session d
      else if is_str msg_type "error" then route_error session d
      else if is_str msg_type "pong" then mret tt
      else mret tt
  | _ => raise (AttributeError (py_class message))
  end.

(** One dequeued line: the [try] with its two handlers. *)
Definition process_line (line : string) : M unit :=
  try_except
    (match json_loads W line with
     | Some message => route_message message
     | None => raise JSONDecodeError
     end)
    (fun e =>
       match e with
       | JSONDecodeError => print (LogInvalidJSON line)
       | _ => print (LogProcessingError e)
       end).

(** One turn of the [while True] of [_process_worker_queue] on the entry
    just dequeued: [false] when the loop breaks. *)
Definition router_item (it : QItem) (st : Emigo) : bool * Emigo :=
  match q_line it with
  | None => (false, set_stderr (stderr st ++ [LogQueueStopped]) st)
  | Some line => (true, final_state (process_line line st))
  end.

(** How a run of the router loop over the queued entries ends. *)
Inductive RouterEnd : Type :=
| Stopped      (* the sentinel was dequeued: the thread exits *)
| Waiting.     (* the queue is empty: [get()] blocks *)

(** [_process_worker_queue] over the entries [q] of the queue. *)
Fixpoint router_loop (q : list QItem) (st : Emigo) : RouterEnd * Emigo :=
  match q with
  | [] => (Waiting, set_queue [] st)
  | it :: q' =>
      let '(continue, st') := router_item it (set_queue q' st) in
      if continue then router_loop q' st' else (Stopped, st')
  end.

Definition _process_worker_queue (st : Emigo) : RouterEnd * Emigo :=
  router_loop (worker_output_queue st) st.


(** ** Worker supervisor *)

(** What becomes of a [subprocess.Popen] call and of the two reader threads
    started after it. *)
Inductive SpawnOutcome : Type :=
| SpawnRaises (e : string)                  (* the [except Exception] of the method *)
| SpawnExited (code : Z)                    (* gone after the grace delay *)
| SpawnAlive (reader_alive stderr_alive : bool).

(** [_start_llm_worker].  A reader thread that is not alive right after
    [start()] has run [_read_worker_stdout] to its end, so its sentinel is
    in the queue. *)
Definition _start_llm_worker (o : SpawnOutcome) : M unit :=
  with_lock
    (st ← get_state;
     if running (llm_worker_process st) then print LogAlreadyRunning
     else
       match o with
       | SpawnRaises e =>
           print (LogStartFailed e);;
           modify (set_process None);;
           call_emacs (message_emacs
             ("Error: Failed to start LLM worker subprocess: " ++ e))
       | SpawnExited code =>
           modify (set_generation (S (generation st)));;
           print (LogExitedImmediately code);;
           modify (set_process None);;
           call_emacs (message_emacs
             ("Error: LLM worker process failed to start (exit code "
                ++ pretty code
                ++ "). Check *Messages* or Emigo process buffer."))
       | SpawnAlive reader_alive stderr_alive =>
           let g := S (generation st) in
           modify (set_generation g);;
           modify (set_process (Some (mkPopen g None false [])));;
           if reader_alive then
             modify (fun st => set_readers (live_readers st ++ [g]) st);;
             if stderr_alive then mret tt
             else print LogStderrThreadFailed;; modify (set_process None)
           else
             put (mkQItem g None);;
             print LogReaderThreadFailed;;
             modify (set_process None)
       end).

(** What [terminate()] followed by [wait(timeout=2)] comes to. *)
Inductive TermOutcome : Type :=
| TermExits (code : Z)
| TermTimeout                 (* subprocess.TimeoutExpired: kill() *)
| TermRaises (e : string).

Record StopEnv : Type := mkStopEnv {
  term : TermOutcome;
  join_exits : bool      (* the router thread is gone when join(timeout=2) returns *)
}.

(** [_stop_llm_worker].  The handle is reset to [None] only in the handler
    of an unexpected exception; [stdin.close()] failing is ignored.  A
    router thread that exits during [join] has dequeued a sentinel, hence
    every entry queued before it. *)
Definition _stop_llm_worker (env : StopEnv) : M unit :=
  with_lock
    (st ← get_state;
     match llm_worker_process st with
     | Some p =>
         match returncode p with
         | None =>
             let closed code := mkPopen (pid p) code true (stdin_written p) in
             match term env with
             | TermExits code => modify (set_process (Some (closed (Some code))))
             | TermTimeout =>
                 print LogKilling;;
                 modify (set_process (Some (closed (Some (-9)%Z))))
             | TermRaises e =>
                 print (LogStopError e);;
                 modify (set_process None)
             end
         | Some _ => mret tt
         end
     | None => mret tt
     end;;
     st ← get_state;
     match worker_processor_thread st with
     | Some true =>
         put (mkQItem (generation st) None);;
         if join_exits env then
           modify (fun st => set_processor (Some false) (_process_worker_queue st).2)
         else
           print LogProcessorNotExited;;
           modify (set_processor None);;
           modify (fun st => set_strays (S (stray_routers st)) st)
     | _ => mret tt
     end).

(** ** Output pump *)

(** What [proc.stdout.readline()] does, call after call.  The end of the
    list, like an empty string, is the end of the stream. *)
Inductive Read : Type :=
| ReadLine (s : string)
| ReadValueError (e : string)    (* I/O operation on closed file *)
| ReadError (e : string).

(** The [for line in iter(proc.stdout.readline, '')] with its handlers.
    [iter] stops at the first empty string, so the [else] of [if line] is
    never taken. *)
Fixpoint pump_loop (g : nat) (reads : list Read) : M unit :=
  match reads with
  | [] => mret tt
  | ReadLine l :: rest =>
      if String.eqb l "" then mret tt
      else put (mkQItem g (Some (strip W l)));; pump_loop g rest
  | ReadValueError e :: _ => print LogStdoutError
  | ReadError e :: _ => print LogStdoutError
  end.

(** [_read_worker_stdout]; [stdout] is [proc.stdout], with what reading it
    will give. *)
Definition _read_worker_stdout (stdout : option (list Read)) : M unit :=
  st ← get_state;
  match llm_worker_process st, stdout with
  | Some proc, Some reads =>
      pump_loop (pid proc) reads;;
      print LogSignalEnd;;
      put (mkQItem (pid proc) None)
  | _, _ =>
      print LogStdoutUnavailable;;
      put (mkQItem (generation st) None)
  end.

(** ** Sending to the worker *)

Inductive WriteOutcome : Type :=
| WriteOk
| WritePipeError (e : string)     (* OSError, BrokenPipeError, ValueError *)
| WriteOtherError (e : string).

Record WorkerEnv : Type := mkWorkerEnv {
  respawn : SpawnOutcome;
  write : WriteOutcome;
  cleanup : StopEnv
}.

(** [session = data.get("session", "unknown")] and the error chunk. *)
Definition flush_error (data : list (string * JValue)) (text : string) : M unit :=
  let session := get_default "session" (JStr "unknown") data in
  call_emacs (eval_in_emacs "emigo--flush-buffer" [session; JStr text; JStr "error"]).

(** [_send_to_worker].  Writing to a closed stdin raises [ValueError]. *)
Definition _send_to_worker (env : WorkerEnv) (data : list (string * JValue)) : M unit :=
  with_lock
    (st ← get_state;
     proceed ←
       (if negb (running (llm_worker_process st)) then
          print LogRestartAttempt;;
          _start_llm_worker (respawn env);;
          st ← get_state;
          match llm_worker_process st with
          | None =>
              print LogRestartFailed;;
              flush_error data "[Error: LLM worker process is not running]";;
              mret false
          | Some _ => mret true
          end
        else mret true);
     if proceed : bool then
       st ← get_state;
       match llm_worker_process st with
       | Some p =>
           match (if stdin_closed p
                  then WritePipeError "I/O operation on closed file"
                  else write env) with
           | WriteOk =>
               modify (set_process
                 (Some (mkPopen (pid p) (returncode p) (stdin_closed p)
                                (stdin_written p ++ [JDict data]))))
           | WritePipeError e =>
               print (LogSendError e);;
               _stop_llm_worker (cleanup env);;
               flush_error data
                 ("[Error: Failed to send message to worker (" ++ e ++ ")]")
           | WriteOtherError e =>
               print (LogSendUnexpected e);;
               flush_error data
                 ("[Error: Unexpected error sending message to worker (" ++ e ++ ")]")
           end
       | None =>
           print LogNotRunning;;
           flush_error data "[Error: LLM worker process is not running]"
       end
     else mret tt).

(** ** Interaction gate *)

(** The drain loop of [cancel_llm_interaction]: [get(timeout=0.1)] until
    the queue is empty; a sentinel is skipped, a line is counted. *)
Fixpoint drain_loop (q : list QItem) (drained_count : nat) : list QItem * nat :=
  match q with
  | [] => ([], drained_count)
  | it :: q' =>
      match q_line it with
      | None => drain_loop q' drained_count
      | Some _ => drain_loop q' (S drained_count)
      end
  end.

Definition drain_queue : M nat := fun st =>
  let '(q, drained_count) := drain_loop (worker_output_queue st) 0 in
  Ret drained_count (set_queue q st).

Record CancelEnv : Type := mkCancelEnv {
  c_stop : StopEnv;
  c_spawn : SpawnOutcome;
  c_router_alive : bool;     (* the new router thread is alive after start() *)
  c_stop_again : StopEnv
}.

(** The roll-back of the cancelled prompt, on the session object. *)
Definition rollback_user_turn (p : string) (context : Context) : M unit :=
  match last (history context) with
  | Some (last_timestamp, last_message) =>
      match last_message with
      | JDict d =>
          if is_str (get "role" d) "user" then
            now ← tick;
            update_context p
              (Ctx.set_history now (map snd (removelast (history context))))
          else print (LogLastNotUser p)
      | _ => raise (AttributeError (py_class last_message))
      end
  | None => print (LogHistoryEmpty p)
  end.

(** [cancel_llm_interaction] *)
Definition cancel_llm_interaction (env : CancelEnv) (p : string) : M bool :=
  st ← get_state;
  if negb (bool_decide (active_interaction_session st = Some p)) then
    call_emacs (message_emacs
      ("No active interaction found for session " ++ p ++ " to cancel."));;
    mret false
  else
    _stop_llm_worker (c_stop env);;
    drain_queue;;
    _start_llm_worker (c_spawn env);;
    worker_restarted_ok ←
      with_lock (st ← get_state; mret (running (llm_worker_process st)));
    if negb worker_restarted_ok then
      print LogRestartAfterCancelFailed;;
      call_emacs (message_emacs
        "[Emigo Error] Failed to restart LLM worker after cancellation.");;
      modify (set_active None);;
      mret false
    else
      modify (set_processor (Some (c_router_alive env)));;
      if negb (c_router_alive env) then
        print LogProcessorRestartFailed;;
        call_emacs (message_emacs
          "[Emigo Error] Failed to restart worker queue processor thread.");;
        _stop_llm_worker (c_stop_again env);;
        modify (set_active None);;
        mret false
      else
        st ← get_state;
        match sessions st !! p with
        | Some context =>
            rollback_user_turn p context;;
            update_context p Ctx.invalidate_cache
        | None => print (LogNoContextAfterCancel p)
        end;;
        modify (set_active None);;
        call_emacs (eval_in_emacs "emigo--flush-buffer"
          [JStr p; JStr (nl ++ "[Interaction cancelled by user.]" ++ nl);
           JStr "warning"]);;
        mret true.

Inductive Confirm : Type :=
| ConfirmYes
| ConfirmNo
| ConfirmRaises (e : string).

Record SendEnv : Type := mkSendEnv {
  confirm : Confirm;                      (* the answer to yes-or-no-p *)
  cancel_env : CancelEnv;
  vars_result : list (option string);     (* emigo-model, emigo-base-url, emigo-api-key *)
  worker_env : WorkerEnv
}.

(** [str(e)] *)
Definition exn_text (e : Exn) : string :=
  match e with
  | JSONDecodeError => "JSONDecodeError"
  | AttributeError ty => "'" ++ ty ++ "' object has no attribute 'get'"
  | TypeError => "TypeError"
  | OtherError e => e
  end.

(** [context.generate_context_string(current_prompt=...)] on the session
    stored under [p]. *)
Definition generate (p : string) (current_prompt : option string) : M string :=
  st ← get_state;
  match sessions st !! p with
  | Some c =>
      let '(s, fs, cv) := generate_context_string W current_prompt c in
      update_context p (Ctx.with_files fs cv);;
      mret s
  | None => mret ""
  end.

(** The check for a running interaction at the head of [emigo_send]:
    [true] when the request may go on. *)
Definition confirm_preemption (env : SendEnv) (p : string)
           (history_override : JValue) : M bool :=
  st ← get_state;
  if active_truthy st then
    let active := default "" (active_interaction_session st) in
    let action_desc :=
      if truthy history_override then "re-run with the revised history"
      else "re-run with your new prompt" in
    try_except
      (call_emacs (get_emacs_func_result "yes-or-no-p"
         ("LLM is currently running for '" ++ active
            ++ "', do you want to stop it and " ++ action_desc ++ "?"));;
       match confirm env with
       | ConfirmRaises e => raise (OtherError e)
       | ConfirmYes =>
           cancelled ← cancel_llm_interaction (cancel_env env) active;
           if negb cancelled then
             call_emacs (message_emacs
               "[Emigo Error] Failed to cancel previous interaction.");;
             mret false
           else mret true
       | ConfirmNo =>
           let ignore_desc :=
             if truthy history_override then "Revised history" else "New prompt" in
           print (LogDeclined p);;
           call_emacs (eval_in_emacs "message"
             [JStr ("[Emigo] LLM busy with " ++ active ++ ". "
                      ++ ignore_desc ++ " ignored.")]);;
           mret false
       end)
      (fun e =>
         print (LogConfirmError e);;
         call_emacs (message_emacs
           ("[Emigo Error] Failed to ask for cancellation confirmation: "
              ++ exn_text e));;
         mret false)
  else mret true.

(** The optimistic change of the session: the override replaces the
    history, or the prompt is appended as a user turn; then the context
    string is generated. *)
Definition prepare_history (p prompt : string) (history_override : JValue) : M string :=
  match history_override with
  | JList (m :: ms) =>
      now ← tick;
      update_context p (Ctx.set_history now (m :: ms));;
      call_emacs (eval_in_emacs "emigo--flush-buffer"
        [JStr p; JStr (nl ++ "[History revised by user]" ++ nl); JStr "info"]);;
      generate p None
  | _ =>
      call_emacs (eval_in_emacs "emigo--flush-buffer"
        [JStr p; JStr (nl ++ nl ++ "User:" ++ nl ++ prompt ++ nl); JStr "user"]);;
      now ← tick;
      update_context p
        (Ctx.append_history now
           (JDict [("role", JStr "user"); ("content", JStr prompt)]));;
      generate p (Some prompt)
  end.

(** [not model or '/' not in model] *)
Definition model_invalid (model : option string) : bool :=
  match model with
  | None => true
  | Some m => String.eqb m "" || negb (contains_slash m)
  end.

(** The request for the worker, from the session as it is now. *)
Definition build_and_send (env : SendEnv) (p prompt : string)
           (model base_url api_key : option string) (context_str : string) : M unit :=
  st ← get_state;
  match sessions st !! p with
  | Some context =>
      let session_history := history context in
      effective_prompt ←
        match last session_history with
        | Some (_, JDict d) => mret (get_default "content" (JStr "") d)
        | Some (_, v) => raise (AttributeError (py_class v))
        | None => mret (JStr prompt)
        end;
      let worker_config :=
        JDict [("model", of_option model); ("api_key", of_option api_key);
               ("base_url", of_option base_url);
               ("verbose", JBool (verbose context))] in
      let request_data :=
        JDict [("session_path", JStr (session_path context));
               ("prompt", effective_prompt);
               ("history",
                JList (map (fun e => JList [JNum e.1; e.2]) session_history));
               ("config", worker_config);
               ("chat_files", JList (map JStr (chat_files context)));
               ("context", JStr context_str)] in
      _send_to_worker (worker_env env)
        [("type", JStr "interaction_request"); ("data", request_data)]
  | None => mret tt
  end.

(** [emigo_send] *)
Definition emigo_send (env : SendEnv) (p prompt : string)
           (history_override : JValue) : M unit :=
  if truthy history_override && negb (is_list history_override) then
    call_emacs (message_emacs
      ("[Emigo Error] Received history_override is not a list: <class '"
         ++ py_class history_override ++ "'>"))
  else
    proceed ← confirm_preemption env p history_override;
    if negb proceed then mret tt
    else
      modify (set_active (Some p));;
      context ← _get_or_create_context p;
      match context with
      | None =>
          call_emacs (eval_in_emacs "emigo--flush-buffer"
            [JStr ("invalid-context-" ++ p);
             JStr ("[Error: Invalid context path '" ++ p ++ "']");
             JStr "error"]);;
          modify (set_active None)
      | Some _ =>
          context_str ← prepare_history p prompt history_override;
          call_emacs (get_emacs_vars
            ["emigo-model"; "emigo-base-url"; "emigo-api-key"]);;
          match vars_result env with
          | model :: base_url :: api_key :: _ =>
              if model_invalid model then
                print LogInvalidModel;;
                call_emacs (message_emacs
                  ("[Emigo Error] Invalid or missing emigo-model: '"
                     ++ default "None" model
                     ++ "'. Expected 'provider/model_name' (e.g., 'ollama/llama3', 'openai/gpt-4o')."));;
                modify (set_active None)
              else build_and_send env p prompt model base_url api_key context_str
          | _ =>
              print LogVarsFailed;;
              call_emacs (message_emacs
                ("Error retrieving Emacs variables for context " ++ p ++ "."));;
              modify (set_active None)
          end
      end.

(** ** The threads side by side *)

(** What can happen next: a request of the front end, one [put] of a
    stdout pump, one turn of a router loop, the worker dying. *)
Inductive Event : Type :=
| EvSend (env : SendEnv) (p prompt : string) (history_override : JValue)
| EvCancel (env : CancelEnv) (p : string)
| EvPumpLine (g : nat) (line : string)   (* the pump of spawn g reads a line *)
| EvPumpEnd (g : nat)                    (* the pump of spawn g reaches its end *)
| EvRouter (stray : bool)                (* a router loop dequeues one entry *)
| EvWorkerExit (code : Z).

Definition remove_reader (g : nat) (l : list nat) : list nat :=
  filter (fun g' => negb (Nat.eqb g' g)) l.

(** One event.  An event that cannot happen in [st] (no such pump, no
    router loop, nothing queued, no process) leaves [st] as it is. *)
Definition exec (ev : Event) (st : Emigo) : Emigo :=
  match ev with
  | EvSend env p prompt history_override =>
      final_state (emigo_send env p prompt history_override st)
  | EvCancel env p => final_state (cancel_llm_interaction env p st)
  | EvPumpLine g line =>
      if existsb (Nat.eqb g) (live_readers st) && negb (String.eqb line "") then
        set_queue (worker_output_queue st ++ [mkQItem g (Some (strip W line))]) st
      else st
  | EvPumpEnd g =>
      if existsb (Nat.eqb g) (live_readers st) then
        set_readers (remove_reader g (live_readers st))
          (set_stderr (stderr st ++ [LogSignalEnd])
             (set_queue (worker_output_queue st ++ [mkQItem g None]) st))
      else st
  | EvRouter stray =>
      let enabled :=
        if stray then negb (Nat.eqb (stray_routers st) 0)
        else bool_decide (worker_processor_thread st = Some true) in
      match worker_output_queue st with
      | it :: q =>
          if enabled then
            let '(continue, st') := router_item it (set_queue q st) in
            if continue then st'
            else if stray then set_strays (pred (stray_routers st')) st'
                 else set_processor (Some false) st'
          else st
      | [] => st
      end
  | EvWorkerExit code =>
      match llm_worker_process st with
      | Some p =>
          match returncode p with
          | None =>
              set_process
                (Some (mkPopen (pid p) (Some code) (stdin_closed p) (stdin_written p))) st
          | Some _ => st
          end
      | None => st
      end
  end.

Definition run (evs : list Event) (st : Emigo) : Emigo :=
  fold_left (fun st ev => exec ev st) evs st.

(** [Emigo.__init__], from the first start of the worker on: the router
    thread is started whether or not the worker came up. *)
Definition init (o : SpawnOutcome) : Emigo :=
  set_processor (Some true) (final_state (_start_llm_worker o empty_state)).

End Orchestrator.

(** ** Notions used to state the properties *)

(** [status in ["success", "max_turns_reached"]] *)
Definition normal_completion (d : list (string * JValue)) : bool :=
  is_str (get_default "status" (JStr "unknown") d) "success"
  || is_str (get_default "status" (JStr "unknown") d) "max_turns_reached".

(** The messages stored for session [p], if it has a record. *)
Definition stored_messages (st : Emigo) (p : string) : option (list JValue) :=
  Ctx.messages <$> sessions st !! p.

(** The active binding once it has been cleared if it names [p]. *)
Definition cleared_if_names (p : string) (a : option string) : option string :=
  if bool_decide (a = Some p) then None else a.

(** [message.get("role") == "user"] on the last entry of a history. *)
Definition last_is_user (h : list (Timestamp * JValue)) : bool :=
  match last h with
  | Some (_, JDict d) => is_str (get "role" d) "user"
  | _ => false
  end.

(** The user turn that [emigo_send] appends for a prompt. *)
Definition user_turn_of (prompt : string) : JValue :=
  JDict [("role", JStr "user"); ("content", JStr prompt)].

(** The line is no JSON text, or dispatching its value raises. *)
Definition unprocessable (W : World) (line : string) (st : Emigo) : Prop :=
  json_loads W line = None
  ∨ ∃ message e st',
      json_loads W line = Some message
      ∧ route_message W message st = Raise e st'.

(** What the router never touches: the worker's side of the state. *)
Definition worker_side (st : Emigo) :=
  (llm_worker_process st, worker_processor_thread st, llm_worker_lock st,
   generation st, live_readers st, stray_routers st).

(** The new worker and the new router loop both come up. *)
Definition restart_succeeds (env : CancelEnv) : bool :=
  match c_spawn env with
  | SpawnAlive true true => c_router_alive env
  | _ => false
  end.

(** The last entry of a history is a message dict, as
    [List[Tuple[float, Dict]]] says, or there is none. *)
Definition last_is_dict (h : list (Timestamp * JValue)) : bool :=
  match last h with
  | Some (_, JDict _) => true
  | Some _ => false
  | None => true
  end.

(** The gate, as the spec names its states. *)
Inductive GateState : Type :=
| Idle
| Busy (p : string).

Definition gate (st : Emigo) : GateState :=
  match active_interaction_session st with
  | Some p => if String.eqb p "" then Idle else Busy p
  | None => Idle
  end.

(** ** The spec's sentences that the code does not bear out, as written *)

(** "If the status indicates normal completion and a final-history payload
    is present, the stored history of S is replaced wholesale by the
    filtered payload; the active binding is cleared iff it names S; the
    front end is notified in every case." *)
Definition finished_claim : Prop :=
  ∀ (W : World) (line : string) (d : list (string * JValue)) (p : string)
    (fh : list JValue) (st : Emigo),
    json_loads W line = Some (JDict d) →
    get "type" d = JStr "finished" →
    get "session" d = JStr p →
    p ≠ "" →
    normal_completion d = true →
    get "final_history" d = JList fh →
    let st' := final_state (process_line W line st) in
    stored_messages st' p = Some (map (filter_entry W) fh)
    ∧ active_interaction_session st'
      = cleared_if_names p (active_interaction_session st)
    ∧ ∃ pre, emacs st'
             = emacs st ++ pre ++ [eval_in_emacs "emigo--agent-finished" [JStr p]].

(** "For every session S that is the active interaction, cancel(S) removes
    exactly the most recent entry of the history of S if and only if that
    entry is user-authored; otherwise the history is unchanged."  Nothing
    is pending in the queue and the lock is free, so that the history at
    the call is the one the roll-back looks at. *)
Definition rollback_claim : Prop :=
  ∀ (W : World) (env : CancelEnv) (p : string) (st : Emigo) (c : Context),
    active_interaction_session st = Some p →
    sessions st !! p = Some c →
    worker_output_queue st = [] →
    llm_worker_lock st = false →
    ∃ c',
      sessions (final_state (cancel_llm_interaction W env p st)) !! p = Some c'
      ∧ if last_is_user (history c)
        then Ctx.messages c' = removelast (Ctx.messages c)
        else history c' = history c.

(** "For every submit accepted while Idle whose model identifier is missing
    or malformed, the call aborts before any message is sent to the worker,
    the gate is Idle afterward, and no user turn is appended: the history
    of the session is unchanged." *)
Definition validation_claim : Prop :=
  ∀ (W : World) (env : SendEnv) (p prompt : string) (history_override : JValue)
    (st : Emigo) (model base_url api_key : option string) (rest : list (option string)),
    active_truthy st = false →
    (truthy history_override = true → is_list history_override = true) →
    isdir W p = true →
    vars_result env = model :: base_url :: api_key :: rest →
    model_invalid model = true →
    let st' := final_state (emigo_send W env p prompt history_override st) in
    llm_worker_process st' = llm_worker_process st
    ∧ gate st' = Idle
    ∧ stored_messages st' p = stored_messages st p.

(** "A message read under a generation older than the current one is never
    dispatched by the router: it is discarded, not routed, across any
    sequence of restarts."  The generation of an entry is the spawn whose
    pump put it, the current generation the number of spawns so far; a
    router turn that discards an entry calls nothing in the front end and
    changes no session and no binding. *)
Definition drain_claim : Prop :=
  ∀ (W : World) (o : SpawnOutcome) (evs : list Event) (it : QItem)
    (q : list QItem) (line : string),
    let st := run W evs (init o) in
    worker_output_queue st = it :: q →
    q_line it = Some line →
    (q_gen it < generation st)%nat →
    let st' := exec W (EvRouter false) st in
    emacs st' = emacs st
    ∧ sessions st' = sessions st
    ∧ active_interaction_session st' = active_interaction_session st.

(** ** A concrete world, to run the model *)

Module Demo.

Definition dq : string := String (ascii_of_nat 34) "".
Definition sq : string := String (ascii_of_nat 39) "".

(** [json.dumps], for values whose strings need no escape. *)
Fixpoint dumps (v : JValue) : string :=
  match v with
  | JNull => "null"
  | JBool true => "true"
  | JBool false => "false"
  | JNum n => pretty n
  | JStr s => (dq ++ s ++ dq)%string
  | JList l =>
      ("[" ++ (fix items (l : list JValue) : string :=
                match l with
                | [] => ""
                | x :: l' =>
                    dumps x ++ match l' with [] => "" | _ => ", " end ++ items l'
                end) l ++ "]")%string
  | JDict d =>
      ("{" ++ (fix items (d : list (string * JValue)) : string :=
                match d with
                | [] => ""
                | (k, x) :: d' =>
                    dq ++ k ++ dq ++ ": " ++ dumps x
                       ++ match d' with [] => "" | _ => ", " end ++ items d'
                end) d ++ "}")%string
  end.

(** [str(v)], for values whose strings need no escape. *)
Fixpoint repr (v : JValue) : string :=
  match v with
  | JNull => "None"
  | JBool true => "True"
  | JBool false => "False"
  | JNum n => pretty n
  | JStr s => (sq ++ s ++ sq)%string
  | JList l =>
      ("[" ++ (fix items (l : list JValue) : string :=
                match l with
                | [] => ""
                | x :: l' =>
                    repr x ++ match l' with [] => "" | _ => ", " end ++ items l'
                end) l ++ "]")%string
  | JDict d =>
      ("{" ++ (fix items (d : list (string * JValue)) : string :=
                match d with
                | [] => ""
                | (k, x) :: d' =>
                    sq ++ k ++ sq ++ ": " ++ repr x
                       ++ match d' with [] => "" | _ => ", " end ++ items d'
                end) d ++ "}")%string
  end.

Definition str (v : JValue) : string :=
  match v with
  | JStr s => s
  | _ => repr v
  end.

(** ASCII white space, as [str.strip()] sees it. *)
Definition is_space (c : ascii) : bool :=
  let n := nat_of_ascii c in
  (Nat.leb 9 n && Nat.leb n 13) || (Nat.leb 28 n && Nat.leb n 32).

Fixpoint lstrip (l : list ascii) : list ascii :=
  match l with
  | c :: l' => if is_space c then lstrip l' else l
  | [] => []
  end.

Definition strip (s : string) : string :=
  string_of_list_ascii
    (rev (lstrip (rev (lstrip (list_ascii_of_string s))))).

Definition user_turn (text : string) : JValue :=
  JDict [("role", JStr "user"); ("content", JStr text)].

Definition assistant_turn (text : string) : JValue :=
  JDict [("role", JStr "assistant"); ("content", JStr text)].

(** Messages of a worker: a chunk of output, an error, two ends of an
    interaction, and a value that is no object. *)
Definition msg_stream : JValue :=
  JDict [("type", JStr "stream"); ("session", JStr "/a");
         ("role", JStr "llm"); ("content", JStr "partial answer")].

Definition msg_error : JValue :=
  JDict [("type", JStr "error"); ("session", JStr "/a");
         ("message", JStr "boom")].

Definition msg_finished : JValue :=
  JDict [("type", JStr "finished"); ("session", JStr "/a");
         ("status", JStr "success"); ("message", JStr "done");
         ("final_history",
          JList [user_turn "hi"; assistant_turn "<context></context>hello"])].

Definition msg_finished_empty : JValue :=
  JDict [("type", JStr "finished"); ("session", JStr "/a");
         ("status", JStr "success"); ("message", JStr "done");
         ("final_history", JList [])].

Definition msg_not_object : JValue := JList [JNum 1; JNum 2].

Definition known_messages : list JValue :=
  [msg_stream; msg_error; msg_finished; msg_finished_empty; msg_not_object].

(** [json.loads] on the lines of [known_messages]; any other line is taken
    for malformed. *)
Definition loads (line : string) : option JValue :=
  List.find (fun v => String.eqb (dumps v) line) known_messages.

Definition context_marker : string := "<context></context>".

(** A filter that removes a leading empty context block. *)
Definition filter (v : JValue) : JValue :=
  match v with
  | JStr s =>
      if String.prefix context_marker s
      then JStr (String.substring (String.length context_marker)
                   (String.length s - String.length context_marker) s)
      else v
  | _ => v
  end.

Definition directories : list string := ["/a"; "/b"; "/proj"].

Definition world : World :=
  mkWorld loads str strip
    (fun p => existsb (String.eqb p) directories)
    filter
    (fun _ c => ("", chat_files c, true)).

(** The same world after the directory [/a] has been removed. *)
Definition world_without_a : World :=
  mkWorld loads str strip
    (fun p => existsb (String.eqb p) ["/b"; "/proj"])
    filter
    (fun _ c => ("", chat_files c, true)).

(** What the environment answers when all goes well, and variations. *)
Definition stop_ok : StopEnv := mkStopEnv (TermExits 0) true.

Definition cancel_ok : CancelEnv :=
  mkCancelEnv stop_ok (SpawnAlive true true) true stop_ok.

Definition cancel_restart_fails : CancelEnv :=
  mkCancelEnv stop_ok (SpawnExited 1) true stop_ok.

Definition worker_ok : WorkerEnv :=
  mkWorkerEnv (SpawnAlive true true) WriteOk stop_ok.

Definition send_ok : SendEnv :=
  mkSendEnv ConfirmYes cancel_ok [Some "openai/gpt-4o"; None; Some "key"] worker_ok.

Definition send_declined : SendEnv :=
  mkSendEnv ConfirmNo cancel_ok [Some "openai/gpt-4o"; None; Some "key"] worker_ok.

Definition send_bad_model : SendEnv :=
  mkSendEnv ConfirmYes cancel_ok [Some "badmodel"; None; Some "key"] worker_ok.

(** The old router loop does not exit within the time [join] waits. *)
Definition cancel_router_stuck : CancelEnv :=
  mkCancelEnv (mkStopEnv (TermExits 0) false) (SpawnAlive true true) true stop_ok.

(** The orchestrator after [__init__], and after a first prompt for [/a]. *)
Definition started : Emigo := init (SpawnAlive true true).

Definition busy_a : Emigo :=
  run world [EvSend send_ok "/a" "hi" JNull] started.

(** A chunk of output is queued, the router loop has not taken it yet. *)
Definition busy_a_chunk_queued : Emigo :=
  run world [EvPumpLine 1 (dumps msg_stream)] busy_a.

(** The prompt is cancelled; then the pump of the first worker, which is
    still reading the old pipe, puts the answer of that worker. *)
Definition late_answer : list Event :=
  [EvSend send_ok "/a" "hi" JNull;
   EvCancel cancel_ok "/a";
   EvPumpLine 1 (dumps msg_finished)].

(** The same after the worker has answered and the router has seen it. *)
Definition idle_after_a : Emigo :=
  run world [EvPumpLine 1 (dumps msg_finished); EvRouter false] busy_a.

End Demo.

(** ** Methods the front end calls to read or reset a session *)

Section Accessors.

Variable W : World.

(** [Context.clear_history] of [context.py], which is not part of the
    sources: whatever it does to the session record. *)
Variable context_clear_history : Context -> Context.

(** [get_history] *)
Definition get_history (p : string) : M (list (Timestamp * JValue)) :=
  context ← _get_or_create_context W p;
  match context with
  | None =>
      call_emacs (message_emacs ("Error: Could not establish context for " ++ p));;
      mret []
  | Some c => mret (history c)
  end.

(** [get_chat_files] *)
Definition get_chat_files (p : string) : M (list string) :=
  context ← _get_or_create_context W p;
  match context with
  | None =>
      call_emacs (message_emacs ("Error: No context found for " ++ p));;
      mret []
  | Some c => mret (chat_files c)
  end.

(** [clear_history] *)
Definition clear_history (p : string) : M bool :=
  context ← _get_or_create_context W p;
  match context with
  | Some c =>
      update_context p context_clear_history;;
      call_emacs (eval_in_emacs "emigo--clear-local-buffer" [JStr (session_path c)]);;
      call_emacs (message_emacs
        ("Cleared history for context: " ++ session_path c));;
      mret true
  | None =>
      call_emacs (message_emacs ("No context found to clear history for: " ++ p));;
      mret false
  end.

End Accessors.

(** ** Notions used to state further properties *)

(** The session [p] has a record in the registry. *)
Definition registered (st : Emigo) (p : string) : Prop :=
  is_Some (sessions st !! p).

(** Every session registered in [st] is registered in [st']. *)
Definition extends (st st' : Emigo) : Prop :=
  ∀ p, registered st p → registered st' p.

(** The session bound as active, if any, has a record. *)
Definition active_registered (st : Emigo) : Prop :=
  ∀ p, active_interaction_session st = Some p → registered st p.

(** The binding is as it was, or cleared. *)
Definition kept_or_cleared (st st' : Emigo) : Prop :=
  active_interaction_session st' = active_interaction_session st
  ∨ active_interaction_session st' = None.

(** What a call guarantees of the state it leaves: [R st st'] when it
    ends (returns or raises), [B st st'] when it blocks. *)
Definition respects (R B : Emigo → Emigo → Prop) {A} (m : M A) (st : Emigo) : Prop :=
  match m st with
  | Ret _ st' => R st st'
  | Raise _ st' => R st st'
  | Block st' => B st st'
  end.

(** Sessions may have been registered but none dropped, and no session
    was newly bound as active. *)
Definition tamely (st st' : Emigo) : Prop :=
  extends st st' ∧ kept_or_cleared st st'.

Definition tame {A} (m : M A) : Prop :=
  ∀ st, respects tamely tamely m st.

(** The lock is given back by a call that ends and held by one that
    blocks. *)
Definition lock_kept (st st' : Emigo) : Prop :=
  llm_worker_lock st' = llm_worker_lock st.

Definition lock_held (st st' : Emigo) : Prop :=
  llm_worker_lock st' = true.

Definition lock_disciplined {A} (m : M A) : Prop :=
  ∀ st, respects lock_kept lock_held m st.

(** The read that ends the [for] loop of a pump. *)
Definition ends_stream (r : Read) : bool :=
  match r with
  | ReadLine l => String.eqb l ""
  | _ => true
  end.

(** The entries a pump of spawn [g] queues for the lines [ls]. *)
Definition queued_lines (W : World) (g : nat) (ls : list string) : list QItem :=
  map (fun l => mkQItem g (Some (strip W l))) ls.

(** The request [emigo_send] writes for the session record [context]. *)
Definition interaction_request (context : Context) (effective_prompt : JValue)
           (model base_url api_key : option string) (context_str : string)
  : list (string * JValue) :=
  [("type", JStr "interaction_request");
   ("data",
    JDict [("session_path", JStr (session_path context));
           ("prompt", effective_prompt);
           ("history",
            JList (map (fun e => JList [JNum e.1; e.2]) (history context)));
           ("config",
            JDict [("model", of_option model); ("api_key", of_option api_key);
                   ("base_url", of_option base_url);
                   ("verbose", JBool (verbose context))]);
           ("chat_files", JList (map JStr (chat_files context)));
           ("context", JStr context_str)])].

(** The question put to the user before a running interaction is stopped. *)
Definition preemption_question (active : string) (ho : JValue) : EmacsCall :=
  get_emacs_func_result "yes-or-no-p"
    ("LLM is currently running for '" ++ active
       ++ "', do you want to stop it and "
       ++ (if truthy ho then "re-run with the revised history"
           else "re-run with your new prompt") ++ "?").

(** ** Further scenarios *)

Module Scenario.

(** Two messages the router drops: a keep-alive answer, and an end of
    interaction that names no session. *)
Definition msg_pong : JValue :=
  JDict [("type", JStr "pong"); ("session", JStr "/a")].

Definition msg_no_session : JValue :=
  JDict [("type", JStr "finished"); ("status", JStr "success")].

Definition loads (line : string) : option JValue :=
  List.find (fun v => String.eqb (Demo.dumps v) line)
    (msg_pong :: msg_no_session :: Demo.known_messages).

(** [Demo.world] with a [json.loads] that knows the two messages too. *)
Definition world : World :=
  mkWorld loads Demo.str Demo.strip
    (fun p => existsb (String.eqb p) Demo.directories)
    Demo.filter
    (fun _ c => ("", chat_files c, true)).

(** The user agrees to stop the running interaction; the worker does not
    come up again. *)
Definition send_restart_fails : SendEnv :=
  mkSendEnv ConfirmYes Demo.cancel_restart_fails
    [Some "openai/gpt-4o"; None; Some "key"] Demo.worker_ok.

(** The question to the user fails. *)
Definition send_confirm_raises : SendEnv :=
  mkSendEnv (ConfirmRaises "epc timeout") Demo.cancel_ok
    [Some "openai/gpt-4o"; None; Some "key"] Demo.worker_ok.

(** The worker did not come up at start-up; then a first prompt for [/a]
    is waiting in [_send_to_worker]. *)
Definition never_started : Emigo := init (SpawnExited 1).

Definition blocked : Emigo :=
  final_state (emigo_send Demo.world Demo.send_ok "/a" "hi" JNull never_started).

(** A history as the front end sends it back after an edit. *)
Definition revised : list JValue :=
  [Demo.user_turn "hi"; Demo.assistant_turn "hello"; Demo.user_turn "again"].

(** A [Context.clear_history] that empties the history. *)
Definition clear (c : Context) : Context :=
  mkContext (session_path c) [] (chat_files c) false (verbose c).

End Scenario.

(** * Properties *)

(** ** Tactics and small facts *)

Ltac munfold :=
  unfold mbind, M_bind, mret, M_ret, modify, print, call_emacs, put,
    get_state, raise, tick, try_except, flush_error in *.

Ltac msimpl := repeat (munfold; cbn [final_state fst snd] in *).

Module Facts.

Lemma lookup_set_item k v d : lookup_item k (set_item k v d) = Some v.
Proof.
  induction d as [|[k' v'] d IH]; simpl.
  - now rewrite String.eqb_refl.
  - destruct (String.eqb k' k) eqn:E; simpl; rewrite E; auto.
Qed.

Lemma messages_set_history now msgs c :
  Ctx.messages (Ctx.set_history now msgs c) = msgs.
Proof.
  unfold Ctx.messages, Ctx.set_history; simpl.
  rewrite map_map; simpl. apply map_id.
Qed.

Lemma messages_append_history now m c :
  Ctx.messages (Ctx.append_history now m c) = Ctx.messages c ++ [m].
Proof. unfold Ctx.messages, Ctx.append_history; simpl. now rewrite map_app. Qed.

End Facts.

(** ** The gate refuses a cancel for a session that is not active *)

Section CancelNotActive.

Variable W : World.

(** C10. [cancel_llm_interaction] for a session that is not the active one
    (also when none is active) returns [False]; it tells the front end so
    and changes nothing else: the worker process, the router thread, the
    queue and every session record are as before. *)
Theorem cancel_not_active_no_effect (env : CancelEnv) (p : string) (st : Emigo) :
  active_interaction_session st ≠ Some p →
  ∃ st',
    cancel_llm_interaction W env p st = Ret false st'
    ∧ st' = set_emacs
              (emacs st ++ [message_emacs
                 ("No active interaction found for session " ++ p ++ " to cancel.")]) st
    ∧ llm_worker_process st' = llm_worker_process st
    ∧ worker_processor_thread st' = worker_processor_thread st
    ∧ worker_output_queue st' = worker_output_queue st
    ∧ sessions st' = sessions st
    ∧ active_interaction_session st' = active_interaction_session st
    ∧ generation st' = generation st.
Proof.
  intros Hne. eexists. split.
  - unfold cancel_llm_interaction. msimpl.
    rewrite bool_decide_eq_false_2 by exact Hne. cbn. reflexivity.
  - repeat split; reflexivity.
Qed.

End CancelNotActive.

(** C10 on a cancel for [/b] while [/a] is the active session. *)
Lemma cancel_not_active_no_effect_witness :
  ∃ st',
    cancel_llm_interaction Demo.world Demo.cancel_ok "/b" Demo.busy_a = Ret false st'
    ∧ st' = set_emacs
              (emacs Demo.busy_a ++ [message_emacs
                 ("No active interaction found for session " ++ "/b" ++ " to cancel.")])
              Demo.busy_a
    ∧ llm_worker_process st' = llm_worker_process Demo.busy_a
    ∧ worker_processor_thread st' = worker_processor_thread Demo.busy_a
    ∧ worker_output_queue st' = worker_output_queue Demo.busy_a
    ∧ sessions st' = sessions Demo.busy_a
    ∧ active_interaction_session st' = active_interaction_session Demo.busy_a
    ∧ generation st' = generation Demo.busy_a.
Proof.
  apply (cancel_not_active_no_effect Demo.world Demo.cancel_ok "/b" Demo.busy_a).
  vm_compute. discriminate.
Defined.

(** ** A declined preemption *)

Section Declined.

Variable W : World.

(** C7. [emigo_send] for a session [p] while an interaction is active for
    [p'], the user answering no: the active binding still names [p'], no
    session record changes, nothing is written to the worker and nothing
    is queued, and the front end is told that the request was ignored. *)
Theorem declined_submit_is_dropped (env : SendEnv) (p p' prompt : string)
        (history_override : JValue) (st : Emigo) :
  active_interaction_session st = Some p' →
  p' ≠ "" →
  (truthy history_override = true → is_list history_override = true) →
  confirm env = ConfirmNo →
  ∃ st',
    emigo_send W env p prompt history_override st = Ret tt st'
    ∧ active_interaction_session st' = Some p'
    ∧ sessions st' = sessions st
    ∧ llm_worker_process st' = llm_worker_process st
    ∧ worker_output_queue st' = worker_output_queue st
    ∧ emacs st' =
        emacs st ++
        [get_emacs_func_result "yes-or-no-p"
           ("LLM is currently running for '" ++ p'
              ++ "', do you want to stop it and "
              ++ (if truthy history_override
                  then "re-run with the revised history"
                  else "re-run with your new prompt") ++ "?");
         eval_in_emacs "message"
           [JStr ("[Emigo] LLM busy with " ++ p' ++ ". "
                    ++ (if truthy history_override
                        then "Revised history" else "New prompt")
                    ++ " ignored.")]].
Proof.
  intros Hact Hne Hty Hno.
  assert (Hpre : truthy history_override && negb (is_list history_override) = false).
  { destruct (truthy history_override); [rewrite Hty by reflexivity|]; reflexivity. }
  assert (Htruthy : active_truthy st = true).
  { unfold active_truthy. rewrite Hact.
    destruct (String.eqb_spec p' ""); [contradiction|reflexivity]. }
  unfold emigo_send. rewrite Hpre.
  unfold confirm_preemption. msimpl.
  rewrite Htruthy, Hact, Hno. cbn.
  eexists. split; [reflexivity|].
  cbn. rewrite <- app_assoc. cbn.
  destruct (truthy history_override); repeat split;
    first [reflexivity | assumption].
Qed.

End Declined.

(** C7 on a prompt for [/b] while [/a] is busy, the user answering no. *)
Lemma declined_submit_is_dropped_witness :
  ∃ st',
    emigo_send Demo.world Demo.send_declined "/b" "yo" JNull Demo.busy_a = Ret tt st'
    ∧ active_interaction_session st' = Some "/a"
    ∧ sessions st' = sessions Demo.busy_a
    ∧ llm_worker_process st' = llm_worker_process Demo.busy_a
    ∧ worker_output_queue st' = worker_output_queue Demo.busy_a
    ∧ emacs st' =
        emacs Demo.busy_a ++
        [get_emacs_func_result "yes-or-no-p"
           "LLM is currently running for '/a', do you want to stop it and re-run with your new prompt?";
         eval_in_emacs "message"
           [JStr "[Emigo] LLM busy with /a. New prompt ignored."]].
Proof.
  apply (declined_submit_is_dropped Demo.world Demo.send_declined "/b" "/a" "yo"
           JNull Demo.busy_a);
    [vm_compute; reflexivity | discriminate | discriminate | reflexivity].
Defined.

(** ** The stdout pump *)

Section Pump.

Variable W : World.

Lemma pump_loop_puts_lines (g : nat) (reads : list Read) (st : Emigo) :
  ∃ st' items,
    pump_loop W g reads st = Ret tt st'
    ∧ worker_output_queue st' = worker_output_queue st ++ items
    ∧ Forall (fun it => q_line it ≠ None) items
    ∧ llm_worker_process st' = llm_worker_process st.
Proof.
  revert st. induction reads as [|r reads IH]; intros st.
  - exists st, []. cbn. rewrite app_nil_r. repeat split; constructor.
  - destruct r as [l|e|e]; cbn.
    + destruct (String.eqb l "").
      * exists st, []. rewrite app_nil_r. repeat split; constructor.
      * msimpl.
        destruct (IH (set_queue (worker_output_queue st ++ [mkQItem g (Some (strip W l))]) st))
          as (st' & items & Hrun & Hq & Hall & Hp).
        exists st', (mkQItem g (Some (strip W l)) :: items).
        rewrite Hrun. split; [reflexivity|]. split; [|split].
        -- rewrite Hq. cbn. now rewrite <- app_assoc.
        -- constructor; [discriminate|exact Hall].
        -- exact Hp.
    + msimpl. eexists _, []. split; [reflexivity|]. cbn.
      rewrite app_nil_r. repeat split; constructor.
    + msimpl. eexists _, []. split; [reflexivity|]. cbn.
      rewrite app_nil_r. repeat split; constructor.
Qed.

Lemma router_loop_stops_at_sentinel (q : list QItem) (st : Emigo) :
  Exists (fun it => q_line it = None) q →
  (router_loop W q st).1 = Stopped.
Proof.
  revert st. induction q as [|it q IH]; intros st Hex.
  - inversion Hex.
  - cbn. unfold router_item.
    destruct (q_line it) as [line|] eqn:Hl; cbn.
    + apply IH. inversion Hex; subst; [congruence|assumption].
    + reflexivity.
Qed.

(** C9. [_read_worker_stdout] returns on every path (the stream ends, a
    read raises, the process or its stdout is not there), and the last
    thing it does is to put the sentinel on the queue, after the lines it
    read; a router loop run on that queue therefore ends by dequeuing a
    sentinel instead of waiting on an empty queue. *)
Theorem stdout_pump_always_signals (stdout : option (list Read)) (st : Emigo) :
  ∃ st' items g,
    _read_worker_stdout W stdout st = Ret tt st'
    ∧ worker_output_queue st' = worker_output_queue st ++ items ++ [mkQItem g None]
    ∧ Forall (fun it => q_line it ≠ None) items
    ∧ (_process_worker_queue W st').1 = Stopped.
Proof.
  assert (Hstop : ∀ st' items g,
             worker_output_queue st' = worker_output_queue st ++ items ++ [mkQItem g None] →
             (_process_worker_queue W st').1 = Stopped).
  { intros st' items g Hq. unfold _process_worker_queue. rewrite Hq.
    apply router_loop_stops_at_sentinel.
    rewrite !Exists_app. right. right. constructor. reflexivity. }
  unfold _read_worker_stdout. msimpl.
  destruct (llm_worker_process st) as [proc|] eqn:Hproc.
  - destruct stdout as [reads|].
    + destruct (pump_loop_puts_lines (pid proc) reads st)
        as (st1 & items & Hrun & Hq & Hall & Hp).
      rewrite Hrun. eexists _, items, (pid proc).
      split; [reflexivity|].
      assert (Hq' : worker_output_queue
                 (set_queue (worker_output_queue (set_stderr (stderr st1 ++ [LogSignalEnd]) st1)
                    ++ [mkQItem (pid proc) None]) (set_stderr (stderr st1 ++ [LogSignalEnd]) st1))
               = worker_output_queue st ++ items ++ [mkQItem (pid proc) None]).
      { cbn. rewrite Hq. now rewrite <- app_assoc. }
      split; [exact Hq'|]. split; [exact Hall|]. eapply Hstop. exact Hq'.
    + eexists _, [], (generation st). split; [reflexivity|].
      split; [reflexivity|]. split; [constructor|].
      eapply (Hstop _ [] (generation st)). reflexivity.
  - eexists _, [], (generation st).
    split; [destruct stdout; reflexivity|].
    split; [reflexivity|]. split; [constructor|].
    eapply (Hstop _ [] (generation st)). reflexivity.
Qed.

End Pump.

(** ** Sending while the worker is down *)

Section SendToDeadWorker.

Variable W : World.

(** C6. [_send_to_worker] with no live worker takes [llm_worker_lock] and
    calls [_start_llm_worker], which takes the same lock: a
    [threading.Lock] held by the caller.  The call waits there for ever,
    the lock held: no process is started, nothing is reported to the
    front end, nothing is written, and the method does not return. *)
Theorem send_to_dead_worker_blocks (env : WorkerEnv)
        (data : list (string * JValue)) (st : Emigo) :
  llm_worker_lock st = false →
  running (llm_worker_process st) = false →
  ∃ st',
    _send_to_worker W env data st = Block st'
    ∧ llm_worker_lock st' = true
    ∧ llm_worker_process st' = llm_worker_process st
    ∧ generation st' = generation st
    ∧ emacs st' = emacs st
    ∧ stderr st' = stderr st ++ [LogRestartAttempt].
Proof.
  intros Hfree Hdead.
  unfold _send_to_worker, with_lock at 1. rewrite Hfree. msimpl.
  cbn -[running _start_llm_worker]. rewrite Hdead. cbn -[_start_llm_worker].
  unfold _start_llm_worker, with_lock. cbn.
  eexists. split; [reflexivity|]. repeat split; reflexivity.
Qed.

(** The same call when the write fails: the handler calls
    [_stop_llm_worker] under the lock and waits in the same way. *)
Lemma send_write_failure_blocks (env : WorkerEnv)
      (data : list (string * JValue)) (st : Emigo) (p : Popen) (e : string) :
  llm_worker_lock st = false →
  llm_worker_process st = Some p →
  returncode p = None →
  stdin_closed p = false →
  write env = WritePipeError e →
  ∃ st',
    _send_to_worker W env data st = Block st'
    ∧ emacs st' = emacs st.
Proof.
  intros Hfree Hp Hrun Hopen Hw.
  unfold _send_to_worker, with_lock at 1. rewrite Hfree. msimpl.
  cbn -[_stop_llm_worker]. rewrite Hp. cbn -[_stop_llm_worker].
  rewrite Hrun. cbn -[_stop_llm_worker]. rewrite Hp. cbn -[_stop_llm_worker].
  rewrite Hopen, Hw. cbn -[_stop_llm_worker].
  unfold _stop_llm_worker, with_lock. cbn.
  eexists. split; reflexivity.
Qed.

(** With a live worker and a write that succeeds the request is written
    and the call returns. *)
Lemma send_to_live_worker (env : WorkerEnv)
      (data : list (string * JValue)) (st : Emigo) (p : Popen) :
  llm_worker_lock st = false →
  llm_worker_process st = Some p →
  returncode p = None →
  stdin_closed p = false →
  write env = WriteOk →
  _send_to_worker W env data st =
    Ret tt (set_process
              (Some (mkPopen (pid p) None false (stdin_written p ++ [JDict data]))) st).
Proof.
  intros Hfree Hp Hrun Hopen Hw.
  unfold _send_to_worker, with_lock. rewrite Hfree. msimpl.
  cbn. rewrite Hp. cbn. rewrite Hrun. cbn. rewrite Hp. cbn.
  rewrite Hopen, Hw. cbn. rewrite Hrun.
  destruct st; cbn in *. subst. reflexivity.
Qed.

End SendToDeadWorker.

(** The request that [emigo_send] builds has no [session] key at its top
    level, so an error chunk of [_send_to_worker] for it would go to the
    session named [unknown]. *)
Example request_error_goes_to_unknown (data : JValue) :
  get_default "session" (JStr "unknown")
    [("type", JStr "interaction_request"); ("data", data)] = JStr "unknown".
Proof. reflexivity. Qed.

(** The call of C6 on a state whose worker failed to start. *)
Lemma send_to_dead_worker_blocks_witness :
  ∃ st',
    _send_to_worker Demo.world
      (mkWorkerEnv (SpawnAlive true true) WriteOk (mkStopEnv (TermExits 0) true))
      [("type", JStr "interaction_request")]
      (init (SpawnExited 1)) = Block st'
    ∧ llm_worker_lock st' = true
    ∧ llm_worker_process st' = llm_worker_process (init (SpawnExited 1))
    ∧ generation st' = generation (init (SpawnExited 1))
    ∧ emacs st' = emacs (init (SpawnExited 1))
    ∧ stderr st' = stderr (init (SpawnExited 1)) ++ [LogRestartAttempt].
Proof.
  apply (send_to_dead_worker_blocks Demo.world); reflexivity.
Defined.

(** ** Lines the router cannot process *)

Section RouterErrors.

Variable W : World.

Lemma clear_active_if_not_str (session : JValue) (st : Emigo) :
  is_string session = false → clear_active_if session st = Ret tt st.
Proof.
  intros Hs. unfold clear_active_if. msimpl.
  destruct (active_interaction_session st); destruct session; try discriminate;
    reflexivity.
Qed.

Lemma route_stream_returns session d st :
  ∃ st', route_stream W session d st = Ret tt st'.
Proof.
  unfold route_stream. msimpl.
  destruct (_ || _); eexists; reflexivity.
Qed.

Lemma route_error_returns session d st :
  ∃ st', route_error W session d st = Ret tt st'.
Proof. unfold route_error, clear_active_if. msimpl. eexists; reflexivity. Qed.

Lemma get_or_create_returns p st :
  ∃ c st', _get_or_create_context W p st = Ret c st'.
Proof.
  unfold _get_or_create_context. msimpl.
  destruct (negb (isdir W p)); cbn; [eexists _, _; reflexivity|].
  destruct (sessions st !! p); eexists _, _; reflexivity.
Qed.

(** An exception leaves [route_message] before anything was changed. *)
Lemma route_message_raise_keeps_state message st e st' :
  route_message W message st = Raise e st' → st' = st.
Proof.
  unfold route_message.
  destruct message as [| | | |l|d]; msimpl; try (intros [= _ <-]; reflexivity).
  destruct (negb (truthy (get "session" d))); [discriminate|].
  destruct (is_str (get "type" d) "stream").
  { destruct (route_stream_returns (get "session" d) d st) as [s1 ->]. discriminate. }
  destruct (is_str (get "type" d) "finished").
  2:{ destruct (is_str (get "type" d) "error").
      - destruct (route_error_returns (get "session" d) d st) as [s1 ->]. discriminate.
      - destruct (is_str (get "type" d) "pong"); discriminate. }
  unfold route_finished. msimpl.
  destruct (get "session" d) as [| | |p|l|d'] eqn:Hs;
    try (rewrite clear_active_if_not_str by reflexivity;
         destruct (_ || _); cbn; [|discriminate];
         destruct (get "final_history" d) as [| | | |[|m ms]|]; cbn;
         first [discriminate | intros [= _ <-]; reflexivity]).
  unfold clear_active_if. msimpl.
  destruct (_ || _); cbn; [|discriminate].
  destruct (get "final_history" d) as [| | | |[|m ms]|]; cbn; try discriminate.
  match goal with
  | |- context [_get_or_create_context W p ?s] =>
      destruct (get_or_create_returns p s) as (c & s1 & ->)
  end.
  destruct c; discriminate.
Qed.

Lemma process_line_unprocessable line st :
  unprocessable W line st →
  ∃ l, process_line W line st = Ret tt (set_stderr (stderr st ++ [l]) st).
Proof.
  intros [Hbad | (message & e & st' & Hload & Hraise)]; unfold process_line; msimpl.
  - rewrite Hbad. cbn. eexists; reflexivity.
  - rewrite Hload, Hraise.
    apply route_message_raise_keeps_state in Hraise as ->.
    destruct e; eexists; reflexivity.
Qed.

Lemma router_loop_stopped_has_sentinel (q : list QItem) (st : Emigo) :
  (router_loop W q st).1 = Stopped → Exists (fun it => q_line it = None) q.
Proof.
  revert st. induction q as [|it q IH]; intros st; cbn.
  - discriminate.
  - unfold router_item. destruct (q_line it) eqn:Hl; cbn.
    + intros H. right. eapply IH, H.
    + intros _. left. exact Hl.
Qed.

(** C8. A queued line that is no JSON text, or whose processing raises,
    costs the router one line in its log: the front end is not called, no
    session and no binding changes, and the loop goes on with the next
    entry.  The loop ends only by dequeuing a sentinel: a run over such a
    line followed by [q] ends exactly when [q] holds a sentinel. *)
Theorem router_skips_bad_lines (line : string) (g : nat) (q : list QItem) (st : Emigo) :
  unprocessable W line (set_queue q st) →
  (∃ l,
      let st1 := set_stderr (stderr st ++ [l]) (set_queue q st) in
      process_line W line (set_queue q st) = Ret tt st1
      ∧ emacs st1 = emacs st
      ∧ sessions st1 = sessions st
      ∧ active_interaction_session st1 = active_interaction_session st
      ∧ router_loop W (mkQItem g (Some line) :: q) st = router_loop W q st1)
  ∧ ((router_loop W (mkQItem g (Some line) :: q) st).1 = Stopped
     ↔ Exists (fun it => q_line it = None) q).
Proof.
  intros Hbad.
  destruct (process_line_unprocessable _ _ Hbad) as [l Hl].
  assert (Hloop : router_loop W (mkQItem g (Some line) :: q) st
                  = router_loop W q (set_stderr (stderr st ++ [l]) (set_queue q st))).
  { cbn. rewrite Hl. reflexivity. }
  split.
  - exists l. cbn zeta. repeat split; try reflexivity; assumption.
  - rewrite Hloop. split.
    + apply router_loop_stopped_has_sentinel.
    + apply router_loop_stops_at_sentinel.
Qed.

End RouterErrors.

(** A line that holds a JSON list is unprocessable too: [.get] raises. *)
Example list_line_unprocessable (st : Emigo) :
  unprocessable Demo.world "[1, 2]" st.
Proof.
  right. exists Demo.msg_not_object, (AttributeError "list"), st.
  split; reflexivity.
Qed.

(** C8 on a line that is no JSON text, followed by one that holds a list. *)
Lemma router_skips_bad_lines_witness :
  (∃ l,
      let st1 := set_stderr (stderr (init (SpawnAlive true true)) ++ [l])
                   (set_queue [mkQItem 1 (Some "[1, 2]")] (init (SpawnAlive true true))) in
      process_line Demo.world "{oops"
        (set_queue [mkQItem 1 (Some "[1, 2]")] (init (SpawnAlive true true))) = Ret tt st1
      ∧ emacs st1 = emacs (init (SpawnAlive true true))
      ∧ sessions st1 = sessions (init (SpawnAlive true true))
      ∧ active_interaction_session st1
        = active_interaction_session (init (SpawnAlive true true))
      ∧ router_loop Demo.world
          [mkQItem 1 (Some "{oops"); mkQItem 1 (Some "[1, 2]")] (init (SpawnAlive true true))
        = router_loop Demo.world [mkQItem 1 (Some "[1, 2]")] st1)
  ∧ ((router_loop Demo.world
        [mkQItem 1 (Some "{oops"); mkQItem 1 (Some "[1, 2]")]
        (init (SpawnAlive true true))).1 = Stopped
     ↔ Exists (fun it => q_line it = None) [mkQItem 1 (Some "[1, 2]")]).
Proof.
  apply (router_skips_bad_lines Demo.world "{oops" 1
           [mkQItem 1 (Some "[1, 2]")] (init (SpawnAlive true true))).
  left. vm_compute. reflexivity.
Defined.

(** ** The end of an interaction *)

Section RouterFinished.

Variable W : World.

Lemma clear_active_if_str p st :
  clear_active_if (JStr p) st
  = Ret tt (set_active (cleared_if_names p (active_interaction_session st)) st).
Proof.
  unfold clear_active_if, cleared_if_names. msimpl.
  destruct st as [ss pr th q [a|] lk ck em er gn rd sr]; cbn; [|reflexivity].
  destruct (String.eqb_spec a p) as [->|Hne].
  - rewrite bool_decide_eq_true_2 by reflexivity. reflexivity.
  - rewrite bool_decide_eq_false_2 by congruence. reflexivity.
Qed.

(** C5, as the code has it.  The router on a [finished] message for the
    session [p]: it returns; the active binding is cleared exactly if it
    named [p]; the front end gets [emigo--agent-finished] for [p] as the
    last call, in every case.  The stored history of [p] is replaced by
    the payload, each entry filtered, when the status is [success] or
    [max_turns_reached], the payload is a list that is not empty and [p]
    is a directory (the record is created if need be); the other sessions
    are untouched.  In every other case no session changes. *)
Theorem finished_message_routed (line : string) (d : list (string * JValue))
        (p : string) (st : Emigo) :
  json_loads W line = Some (JDict d) →
  get "type" d = JStr "finished" →
  get "session" d = JStr p →
  p ≠ "" →
  ∃ st',
    process_line W line st = Ret tt st'
    ∧ active_interaction_session st'
      = cleared_if_names p (active_interaction_session st)
    ∧ (∃ pre, emacs st'
              = emacs st ++ pre ++ [eval_in_emacs "emigo--agent-finished" [JStr p]])
    ∧ (∀ m ms,
          normal_completion d = true →
          get "final_history" d = JList (m :: ms) →
          isdir W p = true →
          stored_messages st' p = Some (map (filter_entry W) (m :: ms))
          ∧ ∀ p', p' ≠ p → sessions st' !! p' = sessions st !! p')
    ∧ (normal_completion d = false
       ∨ (∀ m ms, get "final_history" d ≠ JList (m :: ms))
       ∨ isdir W p = false →
       sessions st' = sessions st).
Proof.
  intros Hload Htype Hsess Hne.
  assert (Htruthy : truthy (JStr p) = true).
  { cbn. destruct (String.eqb_spec p ""); [contradiction|reflexivity]. }
  unfold process_line, try_except. rewrite Hload.
  unfold route_message. rewrite Htype, Hsess, Htruthy. cbn [negb is_str].
  change (String.eqb "finished" "stream") with false.
  change (String.eqb "finished" "finished") with true. cbn iota.
  unfold route_finished. fold (normal_completion d). msimpl.
  rewrite clear_active_if_str.
  set (st0 := set_active (cleared_if_names p (active_interaction_session st)) st).
  destruct (normal_completion d) eqn:Hnorm.
  2:{ eexists. split; [reflexivity|]. cbn.
      split; [reflexivity|]. split; [exists []; reflexivity|].
      split; [intros; discriminate|reflexivity]. }
  destruct (get "final_history" d) as [| | | |[|m ms]|] eqn:Hfh;
    try (eexists; split; [reflexivity|]; cbn;
         split; [reflexivity|]; split; [exists []; reflexivity|];
         split; [intros; discriminate|reflexivity]).
  unfold _get_or_create_context. msimpl.
  destruct (isdir W p) eqn:Hdir; cbn.
  2:{ eexists. split; [reflexivity|]. cbn.
      split; [reflexivity|].
      split; [eexists [_]; rewrite <- app_assoc; reflexivity|].
      split; [intros; discriminate|reflexivity]. }
  destruct (sessions st !! p) as [c|] eqn:Hc; cbn.
  - eexists. split; [reflexivity|]. cbn.
    split; [reflexivity|]. split; [exists []; reflexivity|]. split.
    + intros m' ms' _ [= <- <-] _. unfold stored_messages. cbn. split.
      * rewrite lookup_alter_eq, Hc. cbn -[Ctx.messages Ctx.set_history].
        now rewrite Facts.messages_set_history.
      * intros p' Hp'. now rewrite lookup_alter_ne by congruence.
    + intros [H|[H|H]]; [discriminate|exfalso; eapply H; reflexivity|discriminate].
  - eexists. split; [reflexivity|]. cbn.
    split; [reflexivity|]. split; [exists []; reflexivity|]. split.
    + intros m' ms' _ [= <- <-] _. unfold stored_messages. cbn. split.
      * rewrite lookup_alter_eq, lookup_insert_eq.
        cbn -[Ctx.messages Ctx.set_history].
        now rewrite Facts.messages_set_history.
      * intros p' Hp'.
        rewrite lookup_alter_ne, lookup_insert_ne by congruence. reflexivity.
    + intros [H|[H|H]]; [discriminate|exfalso; eapply H; reflexivity|discriminate].
Qed.

End RouterFinished.

(** C5 on the answer to the first prompt of session [/a]. *)
Lemma finished_message_routed_witness :
  ∃ st',
    process_line Demo.world (Demo.dumps Demo.msg_finished) Demo.busy_a = Ret tt st'
    ∧ active_interaction_session st' = None
    ∧ (∃ pre, emacs st'
              = emacs Demo.busy_a ++ pre
                  ++ [eval_in_emacs "emigo--agent-finished" [JStr "/a"]])
    ∧ stored_messages st' "/a"
      = Some [Demo.user_turn "hi"; Demo.assistant_turn "hello"].
Proof.
  destruct (finished_message_routed Demo.world (Demo.dumps Demo.msg_finished)
              [("type", JStr "finished"); ("session", JStr "/a");
               ("status", JStr "success"); ("message", JStr "done");
               ("final_history",
                JList [Demo.user_turn "hi";
                       Demo.assistant_turn "<context></context>hello"])]
              "/a" Demo.busy_a)
    as (st' & Hrun & Hact & Hemacs & Hrepl & _);
    [reflexivity | reflexivity | reflexivity | discriminate |].
  exists st'. split; [exact Hrun|]. split; [exact Hact|]. split; [exact Hemacs|].
  destruct (Hrepl (Demo.user_turn "hi")
              [Demo.assistant_turn "<context></context>hello"])
    as [Hmsgs _]; [reflexivity | reflexivity | reflexivity |].
  exact Hmsgs.
Defined.

(** C5 as the spec words it fails: the directory [/a] is gone when the
    worker reports success with a payload of two turns; the router then
    keeps the history it had, the one turn of the prompt. *)
Lemma finished_claim_fails : ¬ finished_claim.
Proof.
  intros H.
  destruct (H Demo.world_without_a (Demo.dumps Demo.msg_finished)
              [("type", JStr "finished"); ("session", JStr "/a");
               ("status", JStr "success"); ("message", JStr "done");
               ("final_history",
                JList [Demo.user_turn "hi";
                       Demo.assistant_turn "<context></context>hello"])]
              "/a"
              [Demo.user_turn "hi"; Demo.assistant_turn "<context></context>hello"]
              Demo.busy_a)
    as [Hmsgs _]; [reflexivity | reflexivity | reflexivity | discriminate
                   | reflexivity | reflexivity |].
  vm_compute in Hmsgs. discriminate Hmsgs.
Qed.

(** The same with an empty payload, the directory being there: the code
    takes the empty list for no payload and keeps the stored history. *)
Example finished_empty_payload_keeps_history :
  stored_messages
    (final_state
       (process_line Demo.world (Demo.dumps Demo.msg_finished_empty) Demo.busy_a)) "/a"
  = Some [Demo.user_turn "hi"].
Proof. vm_compute. reflexivity. Qed.

(** ** What the router leaves alone *)

Section Frame.

Variable W : World.

Lemma route_message_frame (message : JValue) (st : Emigo) :
  worker_side (final_state (route_message W message st)) = worker_side st
  ∧ worker_output_queue (final_state (route_message W message st))
    = worker_output_queue st.
Proof.
  unfold route_message, route_stream, route_finished, route_error,
    _get_or_create_context, update_context, clear_active_if.
  msimpl.
  repeat (case_match; simplify_eq/=); split; reflexivity.
Qed.

Lemma process_line_frame (line : string) (st : Emigo) :
  worker_side (final_state (process_line W line st)) = worker_side st
  ∧ worker_output_queue (final_state (process_line W line st))
    = worker_output_queue st.
Proof.
  unfold process_line. msimpl.
  destruct (json_loads W line) as [m|]; [|split; reflexivity].
  pose proof (route_message_frame m st) as H.
  destruct (route_message W m st); cbn in *; try assumption.
  destruct e; exact H.
Qed.

Lemma router_loop_frame (q : list QItem) (st : Emigo) :
  worker_side (router_loop W q st).2 = worker_side st.
Proof.
  revert st. induction q as [|it q IH]; intros st; [reflexivity|].
  cbn. unfold router_item. destruct (q_line it) as [line|]; [|reflexivity].
  rewrite IH. apply (process_line_frame line (set_queue q st)).
Qed.

End Frame.

(** ** Cancelling the active interaction *)

Section Cancel.

Variable W : World.

Lemma drain_loop_empties (q : list QItem) (n : nat) : (drain_loop q n).1 = [].
Proof.
  revert n. induction q as [|it q IH]; intros n; cbn; [reflexivity|].
  destruct (q_line it); apply IH.
Qed.

(** The drain removes every entry and touches nothing but the queue. *)
Lemma drain_queue_spec (st : Emigo) :
  ∃ n, drain_queue st = Ret n (set_queue [] st).
Proof.
  unfold drain_queue.
  pose proof (drain_loop_empties (worker_output_queue st) 0) as H.
  destruct (drain_loop (worker_output_queue st) 0) as [q n]. cbn in H. subst q.
  exists n. reflexivity.
Qed.

(** [_stop_llm_worker] with the lock free: it returns with the lock free,
    no worker running and no router thread known to be alive. *)
Lemma stop_spec (env : StopEnv) (st : Emigo) :
  llm_worker_lock st = false →
  ∃ st1,
    _stop_llm_worker W env st = Ret tt st1
    ∧ llm_worker_lock st1 = false
    ∧ running (llm_worker_process st1) = false
    ∧ worker_processor_thread st1 ≠ Some true
    ∧ generation st1 = generation st.
Proof.
  intros Hfree. unfold _stop_llm_worker, with_lock, _process_worker_queue.
  rewrite Hfree. msimpl. cbn.
  assert (Hjoin : ∀ q s,
             llm_worker_process (router_loop W q s).2 = llm_worker_process s
             ∧ generation (router_loop W q s).2 = generation s).
  { intros q s. pose proof (router_loop_frame W q s) as Hf.
    unfold worker_side in Hf. injection Hf as Hp _ _ Hg _ _.
    split; assumption. }
  destruct (llm_worker_process st) as [p|] eqn:Hp; cbn;
    [destruct (returncode p) eqn:Hrc; cbn; [|destruct (term env); cbn]|];
    (destruct (worker_processor_thread st) as [[|]|] eqn:Ht; cbn;
     [destruct (join_exits env); cbn| |]);
    (eexists; split; [reflexivity|]); cbn;
    rewrite ?(proj1 (Hjoin _ _)), ?(proj2 (Hjoin _ _)); cbn;
    rewrite ?Hp; cbn; rewrite ?Hrc;
    repeat split; congruence.
Qed.

(** [_start_llm_worker] with the lock free and no worker running: it
    returns with the lock free; sessions, binding, clock and router
    thread are untouched; a worker runs afterwards exactly if the process
    and both reader threads are alive, and then nothing was queued; what
    is queued otherwise carries the new spawn's number. *)
Lemma start_spec (o : SpawnOutcome) (st : Emigo) :
  llm_worker_lock st = false →
  running (llm_worker_process st) = false →
  ∃ st',
    _start_llm_worker o st = Ret tt st'
    ∧ sessions st' = sessions st
    ∧ active_interaction_session st' = active_interaction_session st
    ∧ clock st' = clock st
    ∧ llm_worker_lock st' = false
    ∧ worker_processor_thread st' = worker_processor_thread st
    ∧ running (llm_worker_process st')
      = match o with SpawnAlive true true => true | _ => false end
    ∧ ∃ extra,
        worker_output_queue st' = worker_output_queue st ++ extra
        ∧ Forall (fun it => q_gen it = generation st') extra
        ∧ (running (llm_worker_process st') = true → extra = []).
Proof.
  intros Hfree Hdead. unfold _start_llm_worker, with_lock. rewrite Hfree.
  msimpl. cbn. rewrite Hdead.
  destruct o as [e|code|[|] [|]]; cbn;
    (eexists; split; [reflexivity|]; cbn; repeat split; try reflexivity);
    first [ exists []; rewrite app_nil_r; repeat split; try reflexivity;
            apply Forall_nil_2
          | eexists [_]; repeat split; try reflexivity;
            [repeat constructor | discriminate] ].
Qed.

(** [_stop_llm_worker] when no router thread is alive, the lock free. *)
Lemma stop_without_router_spec (env : StopEnv) (st : Emigo) :
  llm_worker_lock st = false →
  worker_processor_thread st ≠ Some true →
  ∃ st',
    _stop_llm_worker W env st = Ret tt st'
    ∧ sessions st' = sessions st
    ∧ active_interaction_session st' = active_interaction_session st
    ∧ clock st' = clock st
    ∧ llm_worker_lock st' = false
    ∧ worker_output_queue st' = worker_output_queue st
    ∧ generation st' = generation st.
Proof.
  intros Hfree Hthread. unfold _stop_llm_worker, with_lock. rewrite Hfree.
  msimpl. cbn.
  destruct (llm_worker_process st) as [p|]; cbn.
  - destruct (returncode p); cbn.
    + destruct (worker_processor_thread st) as [[|]|]; [congruence| |];
        (eexists; split; [reflexivity|]; repeat split; reflexivity).
    + destruct (term env); cbn;
        (destruct (worker_processor_thread st) as [[|]|]; [congruence| |];
         (eexists; split; [reflexivity|]; repeat split; reflexivity)).
  - destruct (worker_processor_thread st) as [[|]|]; [congruence| |];
      (eexists; split; [reflexivity|]; repeat split; reflexivity).
Qed.

(** The roll-back step by itself. *)
Lemma rollback_spec (p : string) (c : Context) (st : Emigo) :
  match last (history c) with
  | Some (_, JDict d) =>
      if is_str (get "role" d) "user" then
        rollback_user_turn p c st
        = Ret tt (set_sessions
                    (alter (Ctx.set_history (clock st)
                              (map snd (removelast (history c)))) p (sessions st))
                    (set_clock (clock st + 1)%Z st))
      else
        rollback_user_turn p c st
        = Ret tt (set_stderr (stderr st ++ [LogLastNotUser p]) st)
  | Some (_, v) =>
      rollback_user_turn p c st = Raise (AttributeError (py_class v)) st
  | None =>
      rollback_user_turn p c st
      = Ret tt (set_stderr (stderr st ++ [LogHistoryEmpty p]) st)
  end.
Proof.
  unfold rollback_user_turn, update_context. msimpl.
  destruct (last (history c)) as [[ts v]|]; [|reflexivity].
  destruct v; try reflexivity.
  destruct (is_str (get "role" d) "user"); reflexivity.
Qed.

Lemma removelast_messages (c : Context) :
  map snd (removelast (history c)) = removelast (Ctx.messages c).
Proof.
  unfold Ctx.messages. induction (history c) as [|x [|y l] IH]; try reflexivity.
  cbn [removelast map] in *. now rewrite IH.
Qed.

(** C3, as the code has it.  [cancel_llm_interaction] for the active
    session [p], the lock being free.  The old worker and router loop are
    stopped first; let [history c] be the history of [p] at that point,
    its last entry a message dict if there is one.  The call returns, and
    no interaction is active afterwards.  It returns [True] exactly if
    the new worker and router loop come up; then the last entry of the
    history has been removed exactly if it is a user turn, every other
    entry keeping its place, and otherwise (not a user turn, or no entry)
    the history is as before; the cache flag is cleared.  It returns
    [False] if the restart fails; then no session record has changed, and
    a trailing user turn is still there. *)
Theorem cancel_rolls_back_user_turn (env : CancelEnv) (p : string) (st : Emigo) :
  active_interaction_session st = Some p →
  llm_worker_lock st = false →
  ∃ st1,
    _stop_llm_worker W (c_stop env) st = Ret tt st1
    ∧ ∀ c,
        sessions st1 !! p = Some c →
        last_is_dict (history c) = true →
        ∃ st',
          cancel_llm_interaction W env p st = Ret (restart_succeeds env) st'
          ∧ active_interaction_session st' = None
          ∧ if restart_succeeds env then
              ∃ c',
                sessions st' !! p = Some c'
                ∧ (last_is_user (history c) = true →
                   Ctx.messages c' = removelast (Ctx.messages c))
                ∧ (last_is_user (history c) = false → history c' = history c)
                ∧ cache_valid c' = false
            else sessions st' = sessions st1.
Proof.
  intros Hact Hfree.
  destruct (stop_spec (c_stop env) st Hfree)
    as (st1 & Hstop & Hfree1 & Hdead1 & Hthread1 & _).
  exists st1. split; [exact Hstop|]. intros c Hc Hdict.
  unfold cancel_llm_interaction. msimpl.
  rewrite bool_decide_eq_true_2 by exact Hact. cbn [negb].
  rewrite Hstop.
  destruct (drain_queue_spec st1) as [n ->].
  destruct (start_spec (c_spawn env) (set_queue [] st1) Hfree1 Hdead1)
    as (st2 & -> & Hs2 & Ha2 & Hk2 & Hfree2 & Ht2 & Hrun2 & _).
  cbn in Hs2, Ha2, Hk2, Ht2.
  unfold with_lock. rewrite Hfree2. cbn -[_stop_llm_worker rollback_user_turn].
  rewrite Hrun2. unfold restart_succeeds.
  destruct (c_spawn env) as [e|code|[|] [|]];
    cbn -[_stop_llm_worker rollback_user_turn];
    try (eexists; split; [reflexivity|]; cbn; split; [reflexivity|exact Hs2]).
  destruct (c_router_alive env); cbn -[_stop_llm_worker rollback_user_turn].
  2:{ match goal with
      | |- context [_stop_llm_worker W ?e ?s] =>
          destruct (stop_without_router_spec e s) as (st3 & -> & Hs3 & _);
            [reflexivity | cbn; congruence |]
      end.
      cbn in Hs3. eexists. split; [reflexivity|]. cbn. split; [reflexivity|].
      congruence. }
  rewrite Hs2, Hc.
  match goal with
  | |- context [rollback_user_turn p c ?s] =>
      pose proof (rollback_spec p c s) as Hrb
  end.
  cbn in Hrb. rewrite Hs2 in Hrb.
  unfold last_is_user. unfold last_is_dict in Hdict.
  destruct (last (history c)) as [[ts v]|] eqn:Hlast.
  - destruct v as [| | | | |d]; try discriminate Hdict.
    destruct (is_str (get "role" d) "user") eqn:Huser; rewrite Hrb; cbn;
      (eexists; split; [reflexivity|]); cbn; (split; [reflexivity|]).
    + rewrite !lookup_alter_eq, ?Hs2, Hc. cbn.
      eexists. split; [reflexivity|]. cbn. repeat split.
      * intros _. rewrite map_map. cbn. rewrite map_id.
        apply removelast_messages.
      * discriminate.
    + rewrite !lookup_alter_eq, ?Hs2, Hc. cbn.
      eexists. split; [reflexivity|]. cbn. repeat split. discriminate.
  - rewrite Hrb. cbn. eexists. split; [reflexivity|]. cbn.
    split; [reflexivity|].
    rewrite !lookup_alter_eq, ?Hs2, Hc. cbn.
    eexists. split; [reflexivity|]. cbn. repeat split. discriminate.
Qed.

End Cancel.

(** C3 on the prompt of session [/a], cancelled while the worker runs. *)
Lemma cancel_rolls_back_user_turn_witness :
  ∃ st',
    cancel_llm_interaction Demo.world Demo.cancel_ok "/a" Demo.busy_a = Ret true st'
    ∧ stored_messages Demo.busy_a "/a" = Some [Demo.user_turn "hi"]
    ∧ stored_messages st' "/a" = Some []
    ∧ active_interaction_session st' = None.
Proof.
  destruct (cancel_rolls_back_user_turn Demo.world Demo.cancel_ok "/a" Demo.busy_a)
    as (st1 & Hstop & Hafter); [reflexivity | reflexivity |].
  assert (Hst1 : st1 = final_state
                         (_stop_llm_worker Demo.world Demo.stop_ok Demo.busy_a))
    by (change Demo.stop_ok with (c_stop Demo.cancel_ok); rewrite Hstop; reflexivity).
  destruct (Hafter (mkContext "/a" [(0%Z, Demo.user_turn "hi")] [] true true))
    as (st' & Hcancel & Hidle & c' & Hc' & Huser & _);
    [rewrite Hst1; vm_compute; reflexivity | reflexivity |].
  exists st'. split; [exact Hcancel|]. split; [vm_compute; reflexivity|].
  split; [|exact Hidle].
  unfold stored_messages. rewrite Hc'. cbn. f_equal. apply Huser. reflexivity.
Defined.

(** C3 as the spec words it fails: the new worker process exits at once,
    [cancel_llm_interaction] returns [False] before the roll-back, and the
    user turn of the cancelled prompt stays in the history. *)
Lemma rollback_claim_fails : ¬ rollback_claim.
Proof.
  intros H.
  destruct (H Demo.world Demo.cancel_restart_fails "/a" Demo.busy_a
              (mkContext "/a" [(0%Z, Demo.user_turn "hi")] [] true true))
    as (c' & Hc' & Hmsgs);
    [reflexivity | vm_compute; reflexivity | reflexivity | reflexivity |].
  vm_compute in Hc'. injection Hc' as <-.
  vm_compute in Hmsgs. discriminate Hmsgs.
Qed.

(** ** A submission with a bad model identifier *)

Section Validation.

Variable W : World.

Lemma generate_spec (p : string) (cp : option string) (st : Emigo) (c : Context) :
  sessions st !! p = Some c →
  ∃ s fs cv,
    generate W p cp st
    = Ret s (set_sessions (alter (Ctx.with_files fs cv) p (sessions st)) st).
Proof.
  intros Hc. unfold generate, update_context. msimpl. rewrite Hc.
  destruct (generate_context_string W cp c) as [[s fs] cv]. cbn.
  exists s, fs, cv. reflexivity.
Qed.

(** What [prepare_history] leaves in the record of [p]. *)
Lemma prepare_history_spec (p prompt : string) (history_override : JValue)
      (st : Emigo) (c : Context) :
  sessions st !! p = Some c →
  ∃ s st',
    prepare_history W p prompt history_override st = Ret s st'
    ∧ stored_messages st' p
      = Some (match history_override with
              | JList (m :: ms) => m :: ms
              | _ => Ctx.messages c ++ [user_turn_of prompt]
              end)
    ∧ (∀ p', p' ≠ p → sessions st' !! p' = sessions st !! p')
    ∧ llm_worker_process st' = llm_worker_process st
    ∧ worker_output_queue st' = worker_output_queue st
    ∧ active_interaction_session st' = active_interaction_session st
    ∧ ∃ pre, emacs st' = emacs st ++ pre.
Proof.
  intros Hc. unfold prepare_history, update_context, stored_messages.
  assert (Hgen : ∀ f cp em,
    ∃ s st',
      generate W p cp
        (set_sessions (alter f p (sessions st))
           (set_clock (clock st + 1)%Z (set_emacs em st))) = Ret s st'
      ∧ Ctx.messages <$> sessions st' !! p = Some (Ctx.messages (f c))
      ∧ (∀ p', p' ≠ p → sessions st' !! p' = sessions st !! p')
      ∧ llm_worker_process st' = llm_worker_process st
      ∧ worker_output_queue st' = worker_output_queue st
      ∧ active_interaction_session st' = active_interaction_session st
      ∧ emacs st' = em).
  { intros f cp em.
    edestruct (generate_spec p cp) as (s & fs & cv & ->).
    { cbn. rewrite lookup_alter_eq, Hc. reflexivity. }
    eexists _, _. split; [reflexivity|]. cbn.
    rewrite !lookup_alter_eq, Hc. cbn. repeat split.
    intros p' Hp'. now rewrite !lookup_alter_ne by congruence. }
  assert (Happend :
    ∃ s st',
      (call_emacs (eval_in_emacs "emigo--flush-buffer"
         [JStr p; JStr (nl ++ nl ++ "User:" ++ nl ++ prompt ++ nl); JStr "user"]);;
       now ← tick;
       modify (λ st0, set_sessions
                 (alter (Ctx.append_history now (user_turn_of prompt)) p (sessions st0)) st0);;
       generate W p (Some prompt)) st = Ret s st'
      ∧ Ctx.messages <$> sessions st' !! p
        = Some (Ctx.messages c ++ [user_turn_of prompt])
      ∧ (∀ p', p' ≠ p → sessions st' !! p' = sessions st !! p')
      ∧ llm_worker_process st' = llm_worker_process st
      ∧ worker_output_queue st' = worker_output_queue st
      ∧ active_interaction_session st' = active_interaction_session st
      ∧ ∃ pre, emacs st' = emacs st ++ pre).
  { msimpl. cbn.
    match goal with
    | |- context [generate W p ?cp (set_sessions (alter ?f p _) (set_clock _ (set_emacs ?em _)))] =>
        destruct (Hgen f cp em) as (s & st' & Hrun & Hm & Ho & Hp & Hq & Ha & He)
    end.
    cbn in Hrun. exists s, st'. split; [exact Hrun|].
    rewrite Hm, Facts.messages_append_history.
    repeat split; try assumption. eexists. exact He. }
  destruct history_override as [| | | |[|m ms]|]; try exact Happend.
  msimpl. cbn.
  match goal with
  | |- context [generate W p ?cp (set_emacs ?em (set_sessions (alter ?f p _) (set_clock _ _)))] =>
      destruct (Hgen f cp em) as (s & st' & Hrun & Hm & Ho & Hp & Hq & Ha & He)
  end.
  cbn in Hrun. exists s, st'. split; [exact Hrun|].
  rewrite Hm, Facts.messages_set_history.
  repeat split; try assumption. eexists. exact He.
Qed.

Lemma get_or_create_spec (p : string) (st : Emigo) :
  isdir W p = true →
  ∃ c,
    _get_or_create_context W p st
    = Ret (Some c) (set_sessions (<[p := c]> (sessions st)) st)
    ∧ Ctx.messages c = default [] (stored_messages st p).
Proof.
  intros Hdir. unfold _get_or_create_context, stored_messages. msimpl.
  rewrite Hdir. cbn.
  destruct (sessions st !! p) as [c|] eqn:Hc; cbn.
  - exists c. split; [|reflexivity].
    rewrite insert_id by exact Hc. destruct st; reflexivity.
  - eexists. split; reflexivity.
Qed.

(** C4, as the code has it.  [emigo_send] with no interaction active, a
    session directory that exists and a model identifier that is missing,
    empty or without [/]: the call returns, nothing was written to the
    worker or queued, no interaction is active, and the last word to the
    front end is the configuration error.  The session was changed before
    the identifier was looked at and stays changed: its history is the
    override, or the former history with the user turn of the prompt
    appended.  No other session changed. *)
Theorem invalid_model_aborts_after_mutation (env : SendEnv) (p prompt : string)
        (history_override : JValue) (st : Emigo)
        (model base_url api_key : option string) (rest : list (option string)) :
  active_truthy st = false →
  (truthy history_override = true → is_list history_override = true) →
  isdir W p = true →
  vars_result env = model :: base_url :: api_key :: rest →
  model_invalid model = true →
  ∃ st',
    emigo_send W env p prompt history_override st = Ret tt st'
    ∧ llm_worker_process st' = llm_worker_process st
    ∧ worker_output_queue st' = worker_output_queue st
    ∧ active_interaction_session st' = None
    ∧ stored_messages st' p
      = Some (match history_override with
              | JList (m :: ms) => m :: ms
              | _ => default [] (stored_messages st p) ++ [user_turn_of prompt]
              end)
    ∧ (∀ p', p' ≠ p → sessions st' !! p' = sessions st !! p')
    ∧ ∃ pre,
        emacs st'
        = emacs st ++ pre
            ++ [message_emacs
                  ("[Emigo Error] Invalid or missing emigo-model: '"
                     ++ default "None" model
                     ++ "'. Expected 'provider/model_name' (e.g., 'ollama/llama3', 'openai/gpt-4o').")].
Proof.
  intros Hidle Hty Hdir Hvars Hbad.
  assert (Hpre : truthy history_override && negb (is_list history_override) = false).
  { destruct (truthy history_override); [rewrite Hty by reflexivity|]; reflexivity. }
  unfold emigo_send. rewrite Hpre.
  unfold confirm_preemption. msimpl. rewrite Hidle. cbn -[_get_or_create_context prepare_history].
  destruct (get_or_create_spec p (set_active (Some p) st) Hdir) as (c & -> & Hmsgs).
  cbn -[prepare_history].
  edestruct (prepare_history_spec p prompt history_override) as
    (s & st1 & -> & Hm1 & Ho1 & Hp1 & Hq1 & Ha1 & pre & He1).
  { cbn. apply lookup_insert_eq. }
  cbn in Ho1, Hp1, Hq1, Ha1, He1. cbn.
  rewrite Hvars, Hbad. cbn.
  eexists. split; [reflexivity|]. cbn.
  split; [exact Hp1|]. split; [exact Hq1|]. split; [reflexivity|].
  split; [|split].
  - unfold stored_messages in *. cbn. rewrite Hm1.
    rewrite Hmsgs. reflexivity.
  - intros p' Hp'. cbn. rewrite Ho1 by exact Hp'.
    now rewrite lookup_insert_ne by congruence.
  - exists (pre ++ [get_emacs_vars ["emigo-model"; "emigo-base-url"; "emigo-api-key"]]).
    rewrite He1. now rewrite <- !app_assoc.
Qed.

End Validation.

(** C4 on a second prompt for [/a], the model being [badmodel]. *)
Lemma invalid_model_aborts_after_mutation_witness :
  ∃ st',
    emigo_send Demo.world Demo.send_bad_model "/a" "again" JNull Demo.idle_after_a
    = Ret tt st'
    ∧ llm_worker_process st' = llm_worker_process Demo.idle_after_a
    ∧ active_interaction_session st' = None
    ∧ stored_messages st' "/a"
      = Some [Demo.user_turn "hi"; Demo.assistant_turn "hello"; Demo.user_turn "again"].
Proof.
  destruct (invalid_model_aborts_after_mutation Demo.world Demo.send_bad_model
              "/a" "again" JNull Demo.idle_after_a
              (Some "badmodel") None (Some "key") [])
    as (st' & Hrun & Hproc & _ & Hidle & Hmsgs & _);
    [reflexivity | discriminate | reflexivity | reflexivity | reflexivity |].
  exists st'. split; [exact Hrun|]. split; [exact Hproc|]. split; [exact Hidle|].
  rewrite Hmsgs. vm_compute. reflexivity.
Defined.

(** C4 as the spec words it fails: the prompt [again] is in the history
    of [/a] after the submission was refused for its model. *)
Lemma validation_claim_fails : ¬ validation_claim.
Proof.
  intros H.
  destruct (H Demo.world Demo.send_bad_model "/a" "again" JNull Demo.idle_after_a
              (Some "badmodel") None (Some "key") [])
    as (_ & _ & Hmsgs);
    [reflexivity | discriminate | reflexivity | reflexivity | reflexivity |].
  vm_compute in Hmsgs. discriminate Hmsgs.
Qed.

(** ** What the drain of a cancellation covers *)

Section Drain.

Variable W : World.

(** C1, as the code has it.  There is no generation counter in the code:
    a turn of the router loop does the same with an entry whatever spawn
    it came from.  What [cancel_llm_interaction] does for the active
    session, the lock being free, is to empty the queue between stopping
    the old worker and starting the new one: the drain changes the queue
    and nothing else (no entry is dispatched); the call does not block,
    and however it ends the queue holds no entry put before the restart:
    every entry left carries the number of the new spawn, and none is left
    at all when the new worker and router loop come up. *)
Theorem cancel_discards_queued_entries (env : CancelEnv) (p : string) (st : Emigo) :
  active_interaction_session st = Some p →
  llm_worker_lock st = false →
  (∀ g g' l s, router_item W (mkQItem g l) s = router_item W (mkQItem g' l) s)
  ∧ (∀ s, ∃ n, drain_queue s = Ret n (set_queue [] s))
  ∧ (∀ st', cancel_llm_interaction W env p st ≠ Block st')
  ∧ Forall (fun it =>
              q_gen it = generation (final_state (cancel_llm_interaction W env p st)))
           (worker_output_queue (final_state (cancel_llm_interaction W env p st)))
  ∧ (restart_succeeds env = true →
     worker_output_queue (final_state (cancel_llm_interaction W env p st)) = []).
Proof.
  intros Hact Hfree. split; [reflexivity|].
  split; [intros s; apply drain_queue_spec|].
  destruct (stop_spec W (c_stop env) st Hfree)
    as (st1 & Hstop & Hfree1 & Hdead1 & Hthread1 & _).
  unfold cancel_llm_interaction. msimpl.
  rewrite bool_decide_eq_true_2 by exact Hact. cbn [negb].
  rewrite Hstop.
  destruct (drain_queue_spec st1) as [n ->].
  destruct (start_spec (c_spawn env) (set_queue [] st1) Hfree1 Hdead1)
    as (st2 & -> & Hs2 & Ha2 & Hk2 & Hfree2 & Ht2 & Hrun2 & extra & Hq2 & Hgen2 & Hnone).
  cbn in Hq2.
  unfold with_lock. rewrite Hfree2. cbn -[_stop_llm_worker rollback_user_turn].
  rewrite Hrun2. rewrite Hrun2 in Hnone. unfold restart_succeeds.
  destruct (c_spawn env) as [e|code|[|] [|]];
    cbn -[_stop_llm_worker rollback_user_turn];
    try (rewrite Hq2; split; [discriminate|]; split; [exact Hgen2|discriminate]).
  rewrite (Hnone eq_refl) in Hq2. clear Hgen2 Hnone.
  destruct (c_router_alive env); cbn -[_stop_llm_worker rollback_user_turn].
  2:{ match goal with
      | |- context [_stop_llm_worker W ?e ?s] =>
          destruct (stop_without_router_spec W e s)
            as (st3 & -> & _ & _ & _ & _ & Hq3 & Hg3);
            [reflexivity | cbn; congruence |]
      end.
      cbn in Hq3, Hg3. cbn. rewrite Hq3, Hq2.
      split; [discriminate|]. split; [apply Forall_nil_2|discriminate]. }
  destruct (sessions st2 !! p) as [c|] eqn:Hc.
  - match goal with
    | |- context [rollback_user_turn p c ?s] =>
        pose proof (rollback_spec p c s) as Hrb
    end.
    cbn in Hrb.
    destruct (last (history c)) as [[ts v]|].
    + destruct v as [| | | | |d];
        try (rewrite Hrb; cbn; rewrite Hq2;
             split; [discriminate|]; split; [apply Forall_nil_2|reflexivity]).
      destruct (is_str (get "role" d) "user"); rewrite Hrb; cbn; rewrite Hq2;
        (split; [discriminate|]); (split; [apply Forall_nil_2|reflexivity]).
    + rewrite Hrb. cbn. rewrite Hq2.
      split; [discriminate|]. split; [apply Forall_nil_2|reflexivity].
  - cbn. rewrite Hq2.
    split; [discriminate|]. split; [apply Forall_nil_2|reflexivity].
Qed.

End Drain.

(** C1 on a cancellation that finds a chunk of output and the sentinel of
    the stop in the queue, the old router loop being stuck: both are
    removed and the front end hears of the cancellation only. *)
Lemma cancel_discards_queued_entries_witness :
  worker_output_queue Demo.busy_a_chunk_queued
  = [mkQItem 1 (Some (Demo.dumps Demo.msg_stream))]
  ∧ worker_output_queue
      (final_state
         (cancel_llm_interaction Demo.world Demo.cancel_router_stuck "/a"
            Demo.busy_a_chunk_queued)) = []
  ∧ emacs
      (final_state
         (cancel_llm_interaction Demo.world Demo.cancel_router_stuck "/a"
            Demo.busy_a_chunk_queued))
    = emacs Demo.busy_a_chunk_queued
        ++ [eval_in_emacs "emigo--flush-buffer"
              [JStr "/a"; JStr (nl ++ "[Interaction cancelled by user.]" ++ nl);
               JStr "warning"]].
Proof.
  destruct (cancel_discards_queued_entries Demo.world Demo.cancel_router_stuck "/a"
              Demo.busy_a_chunk_queued)
    as (_ & _ & _ & _ & Hempty); [reflexivity | reflexivity |].
  split; [vm_compute; reflexivity|].
  split; [exact (Hempty eq_refl)|]. vm_compute. reflexivity.
Defined.

(** C1 as the spec words it fails.  The prompt of [/a] is cancelled and
    the worker restarted; the pump of the first worker then puts the
    answer that worker had written.  The entry is of spawn 1, the current
    spawn is 2, and the router loop dispatches it: the front end is told
    that the agent finished and the history of [/a] becomes the answer. *)
Lemma drain_claim_fails : ¬ drain_claim.
Proof.
  intros H.
  destruct (H Demo.world (SpawnAlive true true) Demo.late_answer
              (mkQItem 1 (Some (Demo.dumps Demo.msg_finished))) []
              (Demo.dumps Demo.msg_finished))
    as (Hemacs & _); [vm_compute; reflexivity | reflexivity | vm_compute; lia |].
  vm_compute in Hemacs. discriminate Hemacs.
Qed.

(** The state of that run before and after the router turn. *)
Example late_answer_is_routed :
  let st := run Demo.world Demo.late_answer (init (SpawnAlive true true)) in
  let st' := exec Demo.world (EvRouter false) st in
  generation st = 2
  ∧ worker_output_queue st = [mkQItem 1 (Some (Demo.dumps Demo.msg_finished))]
  ∧ stored_messages st "/a" = Some []
  ∧ stored_messages st' "/a"
    = Some [Demo.user_turn "hi"; Demo.assistant_turn "hello"]
  ∧ last (emacs st') = Some (eval_in_emacs "emigo--agent-finished" [JStr "/a"]).
Proof. vm_compute. repeat split; reflexivity. Qed.

(** The same race with the sentinel of the old pump: the new router loop
    takes it for its own and stops, while the new worker runs on. *)
Example late_sentinel_stops_new_router :
  let st := run Demo.world
              [EvSend Demo.send_ok "/a" "hi" JNull;
               EvCancel Demo.cancel_ok "/a";
               EvPumpEnd 1]
              (init (SpawnAlive true true)) in
  let st' := exec Demo.world (EvRouter false) st in
  worker_output_queue st = [mkQItem 1 None]
  ∧ worker_processor_thread st = Some true
  ∧ worker_processor_thread st' = Some false
  ∧ running (llm_worker_process st') = true.
Proof. vm_compute. repeat split; reflexivity. Qed.

(** ** One active interaction *)

Section Gate.

Variable W : World.

(** C2. Whatever requests, pump puts and router turns have happened, the
    gate is [Idle] or [Busy] for one session: two sessions that are busy
    in the same state are the same session. *)
Theorem at_most_one_active (evs : list Event) (st : Emigo) :
  (gate (run W evs st) = Idle ∨ ∃ p, gate (run W evs st) = Busy p)
  ∧ ∀ p1 p2,
      gate (run W evs st) = Busy p1 →
      gate (run W evs st) = Busy p2 →
      p1 = p2.
Proof.
  split.
  - destruct (gate (run W evs st)) as [|p]; [left|right; exists p]; reflexivity.
  - intros p1 p2 H1 H2. rewrite H1 in H2. now injection H2.
Qed.

End Gate.

(** C2 on a prompt for [/b] that preempts the one of [/a]: the gate is
    busy with [/b], so it is not busy with [/a]. *)
Lemma at_most_one_active_witness :
  gate (run Demo.world
          [EvSend Demo.send_ok "/a" "hi" JNull; EvSend Demo.send_ok "/b" "yo" JNull]
          Demo.started) = Busy "/b"
  ∧ gate (run Demo.world
            [EvSend Demo.send_ok "/a" "hi" JNull; EvSend Demo.send_ok "/b" "yo" JNull]
            Demo.started) ≠ Busy "/a".
Proof.
  assert (Hb : gate (run Demo.world
                       [EvSend Demo.send_ok "/a" "hi" JNull;
                        EvSend Demo.send_ok "/b" "yo" JNull]
                       Demo.started) = Busy "/b") by (vm_compute; reflexivity).
  split; [exact Hb|].
  intros Ha.
  pose proof (proj2 (at_most_one_active Demo.world _ _) "/b" "/a" Hb Ha) as Heq.
  discriminate Heq.
Defined.

(** * Further properties *)

(** ** Relating the state before a call and after it *)

Section Respects.

Variables R B : Emigo → Emigo → Prop.

Hypothesis R_refl : ∀ st, R st st.
Hypothesis R_trans : ∀ st1 st2 st3, R st1 st2 → R st2 st3 → R st1 st3.
Hypothesis RB_trans : ∀ st1 st2 st3, R st1 st2 → B st2 st3 → B st1 st3.

Lemma respects_ret {A} (a : A) st : respects R B (mret a) st.
Proof. apply R_refl. Qed.

Lemma respects_raise {A} (e : Exn) st : respects R B (@raise A e) st.
Proof. apply R_refl. Qed.

Lemma respects_modify (f : Emigo → Emigo) st :
  R st (f st) → respects R B (modify f) st.
Proof. intros H. exact H. Qed.

Lemma respects_bind {A C} (m : M A) (f : A → M C) st :
  respects R B m st → (∀ a st1, respects R B (f a) st1) →
  respects R B (m ≫= f) st.
Proof.
  unfold respects, mbind, M_bind. intros Hm Hf.
  destruct (m st) as [a st1|e st1|st1]; try exact Hm.
  specialize (Hf a st1). unfold respects in Hf.
  destruct (f a st1); eauto.
Qed.

Lemma respects_get {A} (f : Emigo → M A) st :
  respects R B (f st) st → respects R B (get_state ≫= f) st.
Proof. intros H. exact H. Qed.

Lemma respects_try {A} (m : M A) (h : Exn → M A) st :
  respects R B m st → (∀ e st1, respects R B (h e) st1) →
  respects R B (try_except m h) st.
Proof.
  unfold respects, try_except. intros Hm Hh.
  destruct (m st) as [a st1|e st1|st1]; try exact Hm.
  specialize (Hh e st1). unfold respects in Hh.
  destruct (h e st1); eauto.
Qed.

End Respects.

(** ** Sessions are registered, never dropped *)

Lemma tamely_refl st : tamely st st.
Proof. split; [intros p H; exact H|left; reflexivity]. Qed.

Lemma tamely_trans st1 st2 st3 : tamely st1 st2 → tamely st2 st3 → tamely st1 st3.
Proof.
  intros [E1 K1] [E2 K2]. split; [intros p H; apply E2, E1, H|].
  unfold kept_or_cleared in *. destruct K2 as [K2|K2]; [|right; exact K2].
  rewrite K2. exact K1.
Qed.

(** [tamely] looks at the sessions and at the binding only. *)
Lemma tamely_same st st' s s' :
  sessions s = sessions st → active_interaction_session s = active_interaction_session st →
  sessions s' = sessions st' → active_interaction_session s' = active_interaction_session st' →
  tamely st st' → tamely s s'.
Proof.
  unfold tamely, extends, registered, kept_or_cleared.
  intros -> -> -> ->. auto.
Qed.

Lemma registered_alter (f : Context → Context) (p q : string) (m : gmap string Context) :
  is_Some (alter f p m !! q) ↔ is_Some (m !! q).
Proof.
  destruct (decide (p = q)) as [->|Hne].
  - rewrite lookup_alter_eq. apply fmap_is_Some.
  - now rewrite lookup_alter_ne.
Qed.

Lemma registered_insert (c : Context) (p q : string) (m : gmap string Context) :
  is_Some (m !! q) → is_Some (<[p := c]> m !! q).
Proof.
  intros H. destruct (decide (p = q)) as [->|Hne].
  - rewrite lookup_insert_eq. eauto.
  - now rewrite lookup_insert_ne.
Qed.

Ltac tame_leaf :=
  unfold tamely, extends, registered, kept_or_cleared; cbn;
  split;
  [ intros ? ?; rewrite ?registered_alter; try apply registered_insert; assumption
  | first [left; reflexivity | right; reflexivity] ].

Ltac tame_rules :=
  match goal with
  | |- respects _ _ (mret _) _ => apply (respects_ret tamely tamely tamely_refl)
  | |- respects _ _ (raise _) _ => apply (respects_raise tamely tamely tamely_refl)
  | |- respects _ _ (get_state ≫= _) _ =>
      apply (respects_get tamely tamely); cbn beta
  | |- respects _ _ (_ ≫= _) _ =>
      apply (respects_bind tamely tamely tamely_trans tamely_trans); [|intros ? ?]
  | |- respects _ _ (try_except _ _) _ =>
      apply (respects_try tamely tamely tamely_trans tamely_trans); [|intros ? ?]
  | |- respects _ _ (modify _) _ =>
      apply (respects_modify tamely tamely); tame_leaf
  end.

Ltac tame_case :=
  match goal with
  | |- respects _ _ (if ?b then _ else _) _ => destruct b eqn:?
  | |- respects _ _ (match ?x with _ => _ end) _ => destruct x eqn:?
  | |- respects _ _ (let '(_, _) := ?x in _) _ => destruct x eqn:?
  end.

Lemma tame_print l : tame (print l).
Proof. intros st. apply (respects_modify tamely tamely). tame_leaf. Qed.

Lemma tame_call_emacs c : tame (call_emacs c).
Proof. intros st. apply (respects_modify tamely tamely). tame_leaf. Qed.

Lemma tame_put it : tame (put it).
Proof. intros st. apply (respects_modify tamely tamely). tame_leaf. Qed.

Lemma tame_tick : tame tick.
Proof. intros st. unfold respects, tick. tame_leaf. Qed.

Lemma tame_update_context p f : tame (update_context p f).
Proof. intros st. apply (respects_modify tamely tamely). tame_leaf. Qed.

Lemma tame_clear_active_if session : tame (clear_active_if session).
Proof.
  intros st. apply (respects_modify tamely tamely).
  destruct (active_interaction_session st) eqn:Ha; destruct session;
    try destruct (String.eqb _ _); tame_leaf.
Qed.

Lemma tame_with_lock {A} (m : M A) st :
  respects tamely tamely m (set_lock true st) → respects tamely tamely (with_lock m) st.
Proof.
  unfold respects, with_lock. intros H.
  destruct (llm_worker_lock st); [apply tamely_refl|].
  destruct (m (set_lock true st)) as [a s|e s|s];
    (eapply tamely_same; [| | | |exact H]; reflexivity).
Qed.

Ltac tame_known :=
  match goal with
  | |- respects _ _ (print _) _ => apply tame_print
  | |- respects _ _ (call_emacs _) _ => apply tame_call_emacs
  | |- respects _ _ (put _) _ => apply tame_put
  | |- respects _ _ tick _ => apply tame_tick
  | |- respects _ _ (update_context _ _) _ => apply tame_update_context
  | |- respects _ _ (clear_active_if _) _ => apply tame_clear_active_if
  | |- respects _ _ (with_lock _) _ => apply tame_with_lock
  end.

Ltac tame_go := repeat first [tame_known | tame_rules | tame_case].

Section Tame.

Variable W : World.

Lemma tame_get_or_create p : tame (_get_or_create_context W p).
Proof. intros st. unfold _get_or_create_context. tame_go. Qed.

Lemma tame_route_message message : tame (route_message W message).
Proof.
  intros st. unfold route_message, route_stream, route_finished, route_error.
  pose proof tame_get_or_create as Hg.
  repeat first [apply Hg | tame_known | tame_rules | tame_case].
Qed.

Lemma tame_process_line line : tame (process_line W line).
Proof.
  intros st. unfold process_line. pose proof tame_route_message as Hr.
  repeat first [apply Hr | tame_known | tame_rules | tame_case].
Qed.

Lemma tamely_router_loop (q : list QItem) (st : Emigo) :
  tamely st (router_loop W q st).2.
Proof.
  revert st. induction q as [|it q IH]; intros st; [tame_leaf|].
  cbn. unfold router_item. destruct (q_line it) as [line|]; [|tame_leaf].
  eapply tamely_trans; [|apply IH].
  pose proof (tame_process_line line (set_queue q st)) as H.
  unfold respects in H.
  eapply (tamely_same (set_queue q st)); [reflexivity..| |]; [reflexivity|].
  destruct (process_line W line (set_queue q st)); exact H.
Qed.

Lemma tame_stop env : tame (_stop_llm_worker W env).
Proof.
  intros st. unfold _stop_llm_worker. tame_go.
  apply (respects_modify tamely tamely).
  eapply tamely_same; [reflexivity..|apply tamely_router_loop].
Qed.

Lemma tame_start o : tame (_start_llm_worker o).
Proof. intros st. unfold _start_llm_worker. tame_go. Qed.

Lemma tame_drain : tame drain_queue.
Proof.
  intros st. unfold respects, drain_queue.
  destruct (drain_loop (worker_output_queue st) 0). tame_leaf.
Qed.

Lemma tame_rollback p c : tame (rollback_user_turn p c).
Proof. intros st. unfold rollback_user_turn. tame_go. Qed.

Lemma tame_cancel env p : tame (cancel_llm_interaction W env p).
Proof.
  intros st. unfold cancel_llm_interaction.
  pose proof tame_stop as Hstop. pose proof tame_start as Hstart.
  pose proof tame_drain as Hdrain. pose proof tame_rollback as Hrb.
  repeat first [apply Hstop | apply Hstart | apply Hdrain | apply Hrb
               | tame_known | tame_rules | tame_case].
Qed.

Lemma tame_confirm_preemption env p ho : tame (confirm_preemption W env p ho).
Proof.
  intros st. unfold confirm_preemption. pose proof tame_cancel as Hc.
  repeat first [apply Hc | tame_known | tame_rules | tame_case].
Qed.

Lemma tame_generate p cp : tame (generate W p cp).
Proof. intros st. unfold generate. tame_go. Qed.

Lemma tame_prepare_history p prompt ho : tame (prepare_history W p prompt ho).
Proof.
  intros st. unfold prepare_history. pose proof tame_generate as Hg.
  repeat first [apply Hg | tame_known | tame_rules | tame_case].
Qed.

Lemma tame_send env data : tame (_send_to_worker W env data).
Proof.
  intros st. unfold _send_to_worker, flush_error.
  pose proof tame_stop as Hstop. pose proof tame_start as Hstart.
  repeat first [apply Hstop | apply Hstart | tame_known | tame_rules | tame_case].
Qed.

Lemma tame_build_and_send env p prompt model base_url api_key s :
  tame (build_and_send W env p prompt model base_url api_key s).
Proof.
  intros st. unfold build_and_send. pose proof tame_send as Hs.
  repeat first [apply Hs | tame_known | tame_rules | tame_case].
Qed.

End Tame.

Section RegistryInvariant.

Variable W : World.

Lemma final_bind {A C} (m : M A) (f : A → M C) st :
  final_state ((m ≫= f) st)
  = match m st with
    | Ret a st1 => final_state (f a st1)
    | Raise _ st1 => st1
    | Block st1 => st1
    end.
Proof. unfold mbind, M_bind. destruct (m st); reflexivity. Qed.

Lemma respects_final (R : Emigo → Emigo → Prop) {A} (m : M A) st :
  respects R R m st → R st (final_state (m st)).
Proof. unfold respects. destruct (m st); auto. Qed.

Lemma tame_final {A} (m : M A) st : tame m → tamely st (final_state (m st)).
Proof. intros H. apply respects_final, H. Qed.

Lemma tamely_keeps_invariant st st' :
  tamely st st' → active_registered st → active_registered st'.
Proof.
  intros [He Hk] Hinv p Hp. destruct Hk as [Hk|Hk]; [|congruence].
  apply He, Hinv. congruence.
Qed.

(** The end of [emigo_send], from the point where the session record is
    there: it keeps the binding or clears it. *)
Lemma tame_submit_tail env p prompt ho :
  tame (context_str ← prepare_history W p prompt ho;
        call_emacs (get_emacs_vars
          ["emigo-model"; "emigo-base-url"; "emigo-api-key"]);;
        match vars_result env with
        | model :: base_url :: api_key :: _ =>
            if model_invalid model then
              print LogInvalidModel;;
              call_emacs (message_emacs
                ("[Emigo Error] Invalid or missing emigo-model: '"
                   ++ default "None" model
                   ++ "'. Expected 'provider/model_name' (e.g., 'ollama/llama3', 'openai/gpt-4o')."));;
              modify (set_active None)
            else build_and_send W env p prompt model base_url api_key context_str
        | _ =>
            print LogVarsFailed;;
            call_emacs (message_emacs
              ("Error retrieving Emacs variables for context " ++ p ++ "."));;
            modify (set_active None)
        end).
Proof.
  intros st. pose proof (tame_prepare_history W) as Hp.
  pose proof (tame_build_and_send W) as Hb.
  repeat first [apply Hp | apply Hb | tame_known | tame_rules | tame_case].
Qed.

Lemma emigo_send_final env p prompt ho st :
  extends st (final_state (emigo_send W env p prompt ho st))
  ∧ (active_registered st →
     active_registered (final_state (emigo_send W env p prompt ho st))).
Proof.
  assert (Htame : ∀ s s', tamely s s' →
            extends s s' ∧ (active_registered s → active_registered s')).
  { intros s s' H. split; [apply H|apply tamely_keeps_invariant, H]. }
  unfold emigo_send.
  destruct (truthy ho && negb (is_list ho)).
  { apply Htame. apply tame_final, tame_call_emacs. }
  rewrite final_bind.
  pose proof (tame_final (confirm_preemption W env p ho) st
                (tame_confirm_preemption W env p ho)) as Hc.
  destruct (confirm_preemption W env p ho st) as [b s1|e s1|s1]; cbn in Hc;
    try (apply Htame, Hc).
  destruct b; cbn [negb]; [|apply Htame, Hc].
  destruct (Htame _ _ Hc) as [He1 Hi1].
  rewrite final_bind. cbn [modify]. rewrite final_bind.
  set (s2 := set_active (Some p) s1).
  destruct (isdir W p) eqn:Hdir.
  - (* the directory exists: the record is there when the binding is set *)
    destruct (get_or_create_spec W p s2 Hdir) as (c & -> & _).
    set (s3 := set_sessions (<[p:=c]> (sessions s2)) s2).
    pose proof (tame_final _ s3 (tame_submit_tail env p prompt ho)) as Ht.
    destruct Ht as [He2 Hk2]. split.
    + intros q Hq. apply He2. apply He1 in Hq.
      unfold registered, s3. cbn. apply registered_insert. exact Hq.
    + intros _ q Hq. destruct Hk2 as [Hk2|Hk2]; [|congruence].
      rewrite Hk2 in Hq. cbn in Hq. injection Hq as <-.
      apply He2. unfold registered, s3. cbn. rewrite lookup_insert_eq. eauto.
  - (* no directory: the binding is cleared again *)
    unfold _get_or_create_context. rewrite Hdir. cbn. split.
    + intros q Hq. apply He1 in Hq. exact Hq.
    + intros _ q Hq. discriminate Hq.
Qed.

End RegistryInvariant.

Section RegistryOverRuns.

Variable W : World.

Lemma exec_keeps_registry (ev : Event) (st : Emigo) :
  extends st (exec W ev st)
  ∧ (active_registered st → active_registered (exec W ev st)).
Proof.
  assert (Htame : ∀ s s', tamely s s' →
            extends s s' ∧ (active_registered s → active_registered s')).
  { intros s s' H. split; [apply H|apply tamely_keeps_invariant, H]. }
  destruct ev as [env p prompt ho|env p|g line|g|stray|code]; cbn [exec].
  - apply emigo_send_final.
  - apply Htame, tame_final, tame_cancel.
  - apply Htame. destruct (_ && _); tame_leaf.
  - apply Htame. destruct (existsb _ _); tame_leaf.
  - apply Htame.
    destruct (worker_output_queue st) as [|it q]; [apply tamely_refl|].
    destruct (if stray then _ else _); [|apply tamely_refl].
    unfold router_item. destruct (q_line it) as [line|].
    + eapply (tamely_same (set_queue q st)); [reflexivity..|].
      apply tame_final, tame_process_line.
    + destruct stray; tame_leaf.
  - apply Htame. destruct (llm_worker_process st) as [pr|]; [|apply tamely_refl].
    destruct (returncode pr); tame_leaf.
Qed.

Lemma run_keeps_registry (evs : list Event) (st : Emigo) :
  extends st (run W evs st)
  ∧ (active_registered st → active_registered (run W evs st)).
Proof.
  revert st. induction evs as [|ev evs IH]; intros st.
  - split; [intros p H; exact H|auto].
  - cbn. destruct (exec_keeps_registry ev st) as [He Hi].
    destruct (IH (exec W ev st)) as [He' Hi']. split.
    + intros p H. apply He', He, H.
    + auto.
Qed.

(** X1. Requests, pump puts, router turns and worker exits never remove a
    session from the registry: a session that has a record keeps one,
    whatever happens next. *)
Theorem registry_never_shrinks (evs : list Event) (st : Emigo) (p : string) :
  registered st p → registered (run W evs st) p.
Proof. apply run_keeps_registry. Qed.

(** X2. From start-up on, the session bound as the active interaction
    always has a record in the registry, whatever requests, pump puts and
    router turns have happened (so the branch of [cancel_llm_interaction]
    for a missing record is never taken for the active session). *)
Theorem active_session_is_registered (o : SpawnOutcome) (evs : list Event) (p : string) :
  active_interaction_session (run W evs (init o)) = Some p →
  registered (run W evs (init o)) p.
Proof.
  intros H. refine (proj2 (run_keeps_registry evs (init o)) _ p H).
  intros q Hq. exfalso. revert Hq. unfold init, _start_llm_worker, with_lock.
  cbn. destruct o as [e|code|[|] [|]]; discriminate.
Qed.

End RegistryOverRuns.

(** X1 on the session [/a] over a cancel and a prompt for [/b]. *)
Lemma registry_never_shrinks_witness :
  registered
    (run Demo.world
       [EvCancel Demo.cancel_ok "/a"; EvSend Demo.send_ok "/b" "yo" JNull]
       Demo.busy_a) "/a".
Proof.
  apply (registry_never_shrinks Demo.world
           [EvCancel Demo.cancel_ok "/a"; EvSend Demo.send_ok "/b" "yo" JNull]
           Demo.busy_a "/a").
  eexists. vm_compute. reflexivity.
Defined.

(** X2 after a first prompt for [/a]. *)
Lemma active_session_is_registered_witness :
  registered
    (run Demo.world [EvSend Demo.send_ok "/a" "hi" JNull] (init (SpawnAlive true true)))
    "/a".
Proof.
  apply (active_session_is_registered Demo.world (SpawnAlive true true)
           [EvSend Demo.send_ok "/a" "hi" JNull] "/a").
  vm_compute. reflexivity.
Defined.

(** ** The supervisor's lock *)

Lemma lock_kept_refl st : lock_kept st st.
Proof. reflexivity. Qed.

Lemma lock_kept_trans st1 st2 st3 :
  lock_kept st1 st2 → lock_kept st2 st3 → lock_kept st1 st3.
Proof. unfold lock_kept. congruence. Qed.

Lemma lock_held_trans st1 st2 st3 :
  lock_kept st1 st2 → lock_held st2 st3 → lock_held st1 st3.
Proof. unfold lock_held. auto. Qed.

Lemma lock_with_lock {A} (m : M A) st :
  respects lock_kept lock_held m (set_lock true st) →
  respects lock_kept lock_held (with_lock m) st.
Proof.
  unfold respects, with_lock, lock_kept, lock_held. intros H.
  destruct (llm_worker_lock st) eqn:Hl; [exact Hl|].
  destruct (m (set_lock true st)) as [a s|e s|s]; cbn in *; congruence.
Qed.

Ltac lock_leaf := unfold lock_kept; cbn; reflexivity.

Ltac lock_rules :=
  match goal with
  | |- respects _ _ (mret _) _ => apply (respects_ret lock_kept lock_held lock_kept_refl)
  | |- respects _ _ (raise _) _ => apply (respects_raise lock_kept lock_held lock_kept_refl)
  | |- respects _ _ (get_state ≫= _) _ =>
      apply (respects_get lock_kept lock_held); cbn beta
  | |- respects _ _ (_ ≫= _) _ =>
      apply (respects_bind lock_kept lock_held lock_kept_trans lock_held_trans);
      [|intros ? ?]
  | |- respects _ _ (try_except _ _) _ =>
      apply (respects_try lock_kept lock_held lock_kept_trans lock_held_trans);
      [|intros ? ?]
  | |- respects _ _ (modify _) _ =>
      apply (respects_modify lock_kept lock_held); lock_leaf
  | |- respects _ _ (print _) _ => apply (respects_modify lock_kept lock_held); lock_leaf
  | |- respects _ _ (call_emacs _) _ =>
      apply (respects_modify lock_kept lock_held); lock_leaf
  | |- respects _ _ (put _) _ => apply (respects_modify lock_kept lock_held); lock_leaf
  | |- respects _ _ (update_context _ _) _ =>
      apply (respects_modify lock_kept lock_held); lock_leaf
  | |- respects _ _ tick _ => unfold respects, tick; lock_leaf
  | |- respects _ _ (with_lock _) _ => apply lock_with_lock
  end.

Ltac lock_go := repeat first [lock_rules | tame_case].

Section Lock.

Variable W : World.

Lemma lock_clear_active_if session : lock_disciplined (clear_active_if session).
Proof.
  intros st. apply (respects_modify lock_kept lock_held).
  destruct (active_interaction_session st); destruct session;
    try destruct (String.eqb _ _); lock_leaf.
Qed.

Lemma lock_get_or_create p : lock_disciplined (_get_or_create_context W p).
Proof. intros st. unfold _get_or_create_context. lock_go. Qed.

Lemma lock_stop env : lock_disciplined (_stop_llm_worker W env).
Proof.
  intros st. unfold _stop_llm_worker. lock_go.
  apply (respects_modify lock_kept lock_held). unfold lock_kept, _process_worker_queue.
  cbn.
  match goal with
  | |- llm_worker_lock (router_loop W ?q ?s).2 = _ =>
      pose proof (router_loop_frame W q s) as Hf
  end.
  unfold worker_side in Hf. injection Hf as _ _ Hl _ _ _. exact Hl.
Qed.

Lemma lock_start o : lock_disciplined (_start_llm_worker o).
Proof. intros st. unfold _start_llm_worker. lock_go. Qed.

Lemma lock_drain : lock_disciplined drain_queue.
Proof.
  intros st. unfold respects, drain_queue.
  destruct (drain_loop (worker_output_queue st) 0). lock_leaf.
Qed.

Lemma lock_rollback p c : lock_disciplined (rollback_user_turn p c).
Proof. intros st. unfold rollback_user_turn. lock_go. Qed.

Lemma lock_cancel env p : lock_disciplined (cancel_llm_interaction W env p).
Proof.
  intros st. unfold cancel_llm_interaction.
  pose proof lock_stop as Hstop. pose proof lock_start as Hstart.
  pose proof lock_drain as Hdrain. pose proof lock_rollback as Hrb.
  repeat first [apply Hstop | apply Hstart | apply Hdrain | apply Hrb
               | lock_rules | tame_case].
Qed.

Lemma lock_confirm_preemption env p ho :
  lock_disciplined (confirm_preemption W env p ho).
Proof.
  intros st. unfold confirm_preemption. pose proof lock_cancel as Hc.
  repeat first [apply Hc | lock_rules | tame_case].
Qed.

Lemma lock_generate p cp : lock_disciplined (generate W p cp).
Proof. intros st. unfold generate. lock_go. Qed.

Lemma lock_prepare_history p prompt ho :
  lock_disciplined (prepare_history W p prompt ho).
Proof.
  intros st. unfold prepare_history. pose proof lock_generate as Hg.
  repeat first [apply Hg | lock_rules | tame_case].
Qed.

Lemma lock_send env data : lock_disciplined (_send_to_worker W env data).
Proof.
  intros st. unfold _send_to_worker, flush_error.
  pose proof lock_stop as Hstop. pose proof lock_start as Hstart.
  repeat first [apply Hstop | apply Hstart | lock_rules | tame_case].
Qed.

Lemma lock_build_and_send env p prompt model base_url api_key s :
  lock_disciplined (build_and_send W env p prompt model base_url api_key s).
Proof.
  intros st. unfold build_and_send. pose proof lock_send as Hs.
  repeat first [apply Hs | lock_rules | tame_case].
Qed.

Lemma lock_emigo_send env p prompt ho :
  lock_disciplined (emigo_send W env p prompt ho).
Proof.
  intros st. unfold emigo_send.
  pose proof lock_confirm_preemption as Hc. pose proof lock_get_or_create as Hg.
  pose proof lock_prepare_history as Hp. pose proof lock_build_and_send as Hb.
  repeat first [apply Hc | apply Hg | apply Hp | apply Hb | lock_rules | tame_case].
Qed.

Lemma exec_keeps_lock_held (ev : Event) (st : Emigo) :
  llm_worker_lock st = true → llm_worker_lock (exec W ev st) = true.
Proof.
  intros Hl.
  assert (Hd : ∀ A (m : M A), lock_disciplined m →
                llm_worker_lock (final_state (m st)) = true).
  { intros A m Hm. specialize (Hm st). unfold respects, lock_kept, lock_held in Hm.
    destruct (m st); cbn; congruence. }
  destruct ev as [env p prompt ho|env p|g line|g|stray|code]; cbn [exec].
  - apply Hd, lock_emigo_send.
  - apply Hd, lock_cancel.
  - destruct (_ && _); exact Hl.
  - destruct (existsb _ _); exact Hl.
  - destruct (worker_output_queue st) as [|it q]; [exact Hl|].
    destruct (if stray then _ else _); [|exact Hl].
    unfold router_item. destruct (q_line it) as [line|].
    + destruct (process_line_frame W line (set_queue q st)) as [Hf _].
      unfold worker_side in Hf. injection Hf as _ _ Hlock _ _ _.
      rewrite Hlock. exact Hl.
    + destruct stray; exact Hl.
  - destruct (llm_worker_process st) as [pr|]; [|exact Hl].
    destruct (returncode pr); exact Hl.
Qed.

(** X3. Once [llm_worker_lock] is held by a call that blocked, nothing
    releases it: it is held after any further requests, pump puts and
    router turns; every later [_send_to_worker] blocks, and so does every
    later [cancel_llm_interaction] for the active session. *)
Theorem held_lock_is_never_released (evs : list Event) (st : Emigo) :
  llm_worker_lock st = true →
  llm_worker_lock (run W evs st) = true
  ∧ (∀ env data, _send_to_worker W env data (run W evs st) = Block (run W evs st))
  ∧ (∀ env p,
        active_interaction_session (run W evs st) = Some p →
        cancel_llm_interaction W env p (run W evs st) = Block (run W evs st)).
Proof.
  intros Hl.
  assert (Hrun : llm_worker_lock (run W evs st) = true).
  { revert st Hl. induction evs as [|ev evs IH]; intros st Hl; [exact Hl|].
    cbn. apply IH, exec_keeps_lock_held, Hl. }
  split; [exact Hrun|]. split.
  - intros env data. unfold _send_to_worker, with_lock. now rewrite Hrun.
  - intros env p Hact. unfold cancel_llm_interaction. msimpl.
    rewrite bool_decide_eq_true_2 by exact Hact. cbn [negb].
    unfold _stop_llm_worker, with_lock. now rewrite Hrun.
Qed.

End Lock.

(** X3 from the state a first prompt blocks in when the worker did not
    come up: a cancel and a second prompt later the lock is still held. *)
Lemma held_lock_is_never_released_witness :
  llm_worker_lock
    (run Demo.world
       [EvCancel Demo.cancel_ok "/a"; EvSend Demo.send_ok "/b" "yo" JNull]
       Scenario.blocked) = true.
Proof.
  apply (held_lock_is_never_released Demo.world
           [EvCancel Demo.cancel_ok "/a"; EvSend Demo.send_ok "/b" "yo" JNull]
           Scenario.blocked).
  vm_compute. reflexivity.
Defined.

(** ** What a cancellation leaves behind *)

Section CancelOutcome.

Variable W : World.

(** [cancel_llm_interaction] for the active session, the lock free: the
    state it returns with, by whether the restart succeeds. *)
Lemma cancel_outcome (env : CancelEnv) (p : string) (st : Emigo) :
  active_interaction_session st = Some p →
  llm_worker_lock st = false →
  ∃ st1,
    _stop_llm_worker W (c_stop env) st = Ret tt st1
    ∧ generation st1 = generation st
    ∧ ∀ c,
        sessions st1 !! p = Some c →
        last_is_dict (history c) = true →
        ∃ st',
          cancel_llm_interaction W env p st = Ret (restart_succeeds env) st'
          ∧ active_interaction_session st' = None
          ∧ llm_worker_lock st' = false
          ∧ (∀ q, q ≠ p → sessions st' !! q = sessions st1 !! q)
          ∧ if restart_succeeds env then
              llm_worker_process st'
              = Some (mkPopen (S (generation st)) None false [])
              ∧ worker_processor_thread st' = Some true
              ∧ worker_output_queue st' = []
              ∧ generation st' = S (generation st)
              ∧ last (emacs st')
                = Some (eval_in_emacs "emigo--flush-buffer"
                          [JStr p; JStr (nl ++ "[Interaction cancelled by user.]" ++ nl);
                           JStr "warning"])
            else
              running (llm_worker_process st') = false
              ∧ sessions st' = sessions st1.
Proof.
  intros Hact Hfree.
  destruct (stop_spec W (c_stop env) st Hfree)
    as (st1 & Hstop & Hfree1 & Hdead1 & Hthread1 & Hgen1).
  exists st1. split; [exact Hstop|]. split; [exact Hgen1|]. intros c Hc Hdict.
  unfold cancel_llm_interaction. msimpl.
  rewrite bool_decide_eq_true_2 by exact Hact. cbn [negb].
  rewrite Hstop.
  destruct (drain_queue_spec st1) as [n ->].
  unfold restart_succeeds.
  unfold _start_llm_worker, with_lock at 1. cbn [llm_worker_lock set_queue].
  rewrite Hfree1. msimpl. cbn -[_stop_llm_worker rollback_user_turn with_lock].
  rewrite Hdead1.
  destruct (c_spawn env) as [e|code|[|] [|]];
    cbn -[_stop_llm_worker rollback_user_turn];
    [ | |destruct (c_router_alive env); cbn -[_stop_llm_worker rollback_user_turn]| | | ];
    try (eexists; split; [reflexivity|]; cbn; repeat split; reflexivity).
  - (* the worker is up, the router loop too *)
    rewrite Hc.
    match goal with
    | |- context [rollback_user_turn p c ?s] =>
        pose proof (rollback_spec p c s) as Hrb
    end.
    cbn in Hrb. unfold last_is_dict in Hdict.
    destruct (last (history c)) as [[ts v]|] eqn:Hlast.
    + destruct v as [| | | | |d]; try discriminate Hdict.
      destruct (is_str (get "role" d) "user") eqn:Huser; rewrite Hrb; cbn;
        (eexists; split; [reflexivity|]); cbn; rewrite Hgen1;
        repeat split; try reflexivity;
        try (intros q Hq; now rewrite !lookup_alter_ne by congruence);
        now rewrite last_snoc.
    + rewrite Hrb. cbn. eexists. split; [reflexivity|]. cbn. rewrite Hgen1.
      repeat split; try reflexivity;
        try (intros q Hq; now rewrite !lookup_alter_ne by congruence);
        now rewrite last_snoc.
  - (* the worker is up, the router loop is not *)
    match goal with
    | |- context [_stop_llm_worker W ?e ?s] =>
        destruct (stop_spec W e s eq_refl) as (st3 & Hs3 & Hf3 & Hd3 & _);
        destruct (stop_without_router_spec W e s) as (st3' & Hs3' & Hss3 & _);
          [reflexivity | cbn; congruence |]
    end.
    rewrite Hs3 in Hs3'. injection Hs3' as <-. rewrite Hs3. cbn in Hss3.
    eexists. split; [reflexivity|]. cbn. repeat split; try assumption.
    intros q _. now rewrite Hss3.
Qed.

End CancelOutcome.

(** ** A submission that reaches the worker *)

Section Submit.

Variable W : World.

Lemma last_of_messages (h : list (Timestamp * JValue)) (l : list JValue) (x : JValue) :
  map snd h = l ++ [x] → ∃ ts, last h = Some (ts, x).
Proof.
  intros H. destruct (last h) as [[ts y]|] eqn:Hl.
  - apply last_Some in Hl as [h' ->]. rewrite map_app in H. cbn in H.
    apply app_inj_tail in H as [_ ->]. eauto.
  - apply last_None in Hl. subst h. destruct l; discriminate.
Qed.

(** [emigo_send] with no interaction active, no override, a session
    directory and a well-formed model: up to the call of
    [_send_to_worker], with the state and the request at that point. *)
Lemma submit_reaches_send (env : SendEnv) (p prompt : string) (ho : JValue)
      (st : Emigo) (model base_url api_key : option string)
      (rest : list (option string)) :
  active_truthy st = false →
  truthy ho = false →
  isdir W p = true →
  vars_result env = model :: base_url :: api_key :: rest →
  model_invalid model = false →
  ∃ st2 c2 s,
    emigo_send W env p prompt ho st
    = _send_to_worker W (worker_env env)
        (interaction_request c2 (JStr prompt) model base_url api_key s) st2
    ∧ sessions st2 !! p = Some c2
    ∧ Ctx.messages c2 = default [] (stored_messages st p) ++ [user_turn_of prompt]
    ∧ (∀ q, q ≠ p → sessions st2 !! q = sessions st !! q)
    ∧ active_interaction_session st2 = Some p
    ∧ llm_worker_process st2 = llm_worker_process st
    ∧ worker_output_queue st2 = worker_output_queue st
    ∧ llm_worker_lock st2 = llm_worker_lock st.
Proof.
  intros Hidle Hfalsy Hdir Hvars Hok.
  unfold emigo_send. rewrite Hfalsy. cbn [andb].
  unfold confirm_preemption. msimpl. rewrite Hidle.
  cbn -[_get_or_create_context prepare_history build_and_send].
  destruct (get_or_create_spec W p (set_active (Some p) st) Hdir) as (c & -> & Hmsgs).
  cbn -[prepare_history build_and_send].
  match goal with
  | |- context [prepare_history W p prompt ho ?s] =>
      pose proof (lock_prepare_history W p prompt ho s) as Hlock;
      destruct (prepare_history_spec W p prompt ho s c)
        as (s' & st1 & Hprep & Hm1 & Ho1 & Hp1 & Hq1 & Ha1 & _);
        [cbn; apply lookup_insert_eq|]
  end.
  unfold respects, lock_kept in Hlock. rewrite Hprep in Hlock. rewrite Hprep.
  cbn in Ho1, Hp1, Hq1, Ha1, Hlock.
  cbn -[build_and_send]. rewrite Hvars, Hok.
  unfold build_and_send. msimpl. cbn -[_send_to_worker].
  unfold stored_messages in Hm1.
  destruct (sessions st1 !! p) as [c2|] eqn:Hc2; [|discriminate Hm1].
  cbn in Hm1. injection Hm1 as Hm1.
  assert (Hm2 : Ctx.messages c2 = Ctx.messages c ++ [user_turn_of prompt]).
  { rewrite Hm1. destruct ho as [| | | |[|m ms]|]; try reflexivity; discriminate Hfalsy. }
  destruct (last_of_messages _ _ _ Hm2) as [ts ->].
  cbn -[_send_to_worker].
  exists (set_emacs
            (emacs st1 ++ [get_emacs_vars ["emigo-model"; "emigo-base-url"; "emigo-api-key"]])
            st1), c2, s'.
  split; [reflexivity|]. cbn.
  split; [exact Hc2|]. split; [now rewrite Hm2, Hmsgs|].
  split; [|auto].
  intros q Hq. rewrite Ho1 by exact Hq. now rewrite lookup_insert_ne by congruence.
Qed.

Lemma send_dead_blocks (env : WorkerEnv) (data : list (string * JValue)) (st : Emigo) :
  llm_worker_lock st = false →
  running (llm_worker_process st) = false →
  _send_to_worker W env data st
  = Block (set_stderr (stderr st ++ [LogRestartAttempt]) (set_lock true st)).
Proof.
  intros Hfree Hdead.
  unfold _send_to_worker, with_lock at 1. rewrite Hfree. msimpl.
  cbn -[running _start_llm_worker]. rewrite Hdead. cbn -[_start_llm_worker].
  unfold _start_llm_worker, with_lock. cbn. reflexivity.
Qed.

(** X4. A prompt submitted while no interaction is active, for a session
    directory that exists, with a well-formed model, a running worker and
    a write that succeeds: [emigo_send] returns; the gate is busy with the
    session; the history of the session is the former one with the user
    turn appended and no other session changed; exactly one request was
    written to the worker, whose prompt is the prompt and whose history
    is the stored history. *)
Theorem accepted_prompt_is_sent (env : SendEnv) (p prompt : string) (ho : JValue)
        (st : Emigo) (pr : Popen) (model base_url api_key : option string)
        (rest : list (option string)) :
  active_truthy st = false →
  truthy ho = false →
  isdir W p = true →
  vars_result env = model :: base_url :: api_key :: rest →
  model_invalid model = false →
  llm_worker_lock st = false →
  llm_worker_process st = Some pr →
  returncode pr = None →
  stdin_closed pr = false →
  write (worker_env env) = WriteOk →
  ∃ st' c' s,
    emigo_send W env p prompt ho st = Ret tt st'
    ∧ active_interaction_session st' = Some p
    ∧ sessions st' !! p = Some c'
    ∧ Ctx.messages c' = default [] (stored_messages st p) ++ [user_turn_of prompt]
    ∧ (∀ q, q ≠ p → sessions st' !! q = sessions st !! q)
    ∧ llm_worker_process st'
      = Some (mkPopen (pid pr) None false
                (stdin_written pr
                   ++ [JDict (interaction_request c' (JStr prompt)
                                model base_url api_key s)]))
    ∧ worker_output_queue st' = worker_output_queue st
    ∧ llm_worker_lock st' = false.
Proof.
  intros Hidle Hfalsy Hdir Hvars Hok Hfree Hproc Hrun Hopen Hwrite.
  destruct (submit_reaches_send env p prompt ho st model base_url api_key rest
              Hidle Hfalsy Hdir Hvars Hok)
    as (st2 & c2 & s & -> & Hc2 & Hm2 & Ho2 & Ha2 & Hp2 & Hq2 & Hl2).
  rewrite (send_to_live_worker W (worker_env env) _ st2 pr);
    [|congruence|congruence|assumption..].
  exists (set_process
            (Some (mkPopen (pid pr) None false
                     (stdin_written pr
                        ++ [JDict (interaction_request c2 (JStr prompt)
                                     model base_url api_key s)]))) st2), c2, s.
  split; [reflexivity|]. cbn. repeat split; try assumption; congruence.
Qed.

(** X5. A prompt submitted while no interaction is active, for a session
    directory and with a well-formed model, when no worker is running and
    the lock is free: [emigo_send] never returns.  It waits in
    [_send_to_worker] with the lock held, the gate busy with the session
    and the user turn appended to its history; nothing was written and no
    worker was started. *)
Theorem prompt_to_dead_worker_blocks (env : SendEnv) (p prompt : string) (ho : JValue)
        (st : Emigo) (model base_url api_key : option string)
        (rest : list (option string)) :
  active_truthy st = false →
  truthy ho = false →
  isdir W p = true →
  vars_result env = model :: base_url :: api_key :: rest →
  model_invalid model = false →
  llm_worker_lock st = false →
  running (llm_worker_process st) = false →
  ∃ st',
    emigo_send W env p prompt ho st = Block st'
    ∧ llm_worker_lock st' = true
    ∧ active_interaction_session st' = Some p
    ∧ stored_messages st' p
      = Some (default [] (stored_messages st p) ++ [user_turn_of prompt])
    ∧ llm_worker_process st' = llm_worker_process st.
Proof.
  intros Hidle Hfalsy Hdir Hvars Hok Hfree Hdead.
  destruct (submit_reaches_send env p prompt ho st model base_url api_key rest
              Hidle Hfalsy Hdir Hvars Hok)
    as (st2 & c2 & s & -> & Hc2 & Hm2 & Ho2 & Ha2 & Hp2 & Hq2 & Hl2).
  rewrite send_dead_blocks by congruence.
  eexists. split; [reflexivity|]. unfold stored_messages in *. cbn.
  rewrite Hc2. cbn. rewrite Hm2. repeat split; assumption.
Qed.

End Submit.

(** X4 on a first prompt for [/b] after start-up. *)
Lemma accepted_prompt_is_sent_witness :
  ∃ st',
    emigo_send Demo.world Demo.send_ok "/b" "yo" JNull Demo.started = Ret tt st'
    ∧ active_interaction_session st' = Some "/b"
    ∧ stored_messages st' "/b" = Some [user_turn_of "yo"]
    ∧ llm_worker_lock st' = false.
Proof.
  destruct (accepted_prompt_is_sent Demo.world Demo.send_ok "/b" "yo" JNull
              Demo.started (mkPopen 1 None false [])
              (Some "openai/gpt-4o") None (Some "key") [])
    as (st' & c' & s & Hrun & Hact & Hc & Hm & _ & _ & _ & Hlock);
    try (vm_compute; reflexivity).
  exists st'. unfold stored_messages. rewrite Hc. cbn. rewrite Hm.
  repeat split; assumption.
Defined.

(** X5 on a first prompt for [/a] when the worker did not come up. *)
Lemma prompt_to_dead_worker_blocks_witness :
  ∃ st',
    emigo_send Demo.world Demo.send_ok "/a" "hi" JNull Scenario.never_started
    = Block st'
    ∧ llm_worker_lock st' = true
    ∧ active_interaction_session st' = Some "/a"
    ∧ stored_messages st' "/a"
      = Some (default [] (stored_messages Scenario.never_started "/a")
                ++ [user_turn_of "hi"])
    ∧ llm_worker_process st' = llm_worker_process Scenario.never_started.
Proof.
  apply (prompt_to_dead_worker_blocks Demo.world Demo.send_ok "/a" "hi" JNull
           Scenario.never_started (Some "openai/gpt-4o") None (Some "key") []);
    vm_compute; reflexivity.
Defined.

(** ** Preemption *)

Lemma bind_ret_eq {A B} (m : M A) (k : A → M B) (st st1 : Emigo) (a : A) :
  m st = Ret a st1 → (x ← m; k x) st = k a st1.
Proof. intros H. unfold mbind, M_bind. now rewrite H. Qed.

Section Preemption.

Variable W : World.

(** [_stop_llm_worker] when nothing is queued: the router loop, if it is
    alive, takes the sentinel of the stop and nothing else. *)
Lemma stop_idle_spec (env : StopEnv) (st : Emigo) :
  llm_worker_lock st = false →
  worker_output_queue st = [] →
  ∃ st1,
    _stop_llm_worker W env st = Ret tt st1
    ∧ sessions st1 = sessions st
    ∧ active_interaction_session st1 = active_interaction_session st
    ∧ emacs st1 = emacs st
    ∧ generation st1 = generation st.
Proof.
  intros Hfree Hq. unfold _stop_llm_worker, with_lock, _process_worker_queue.
  rewrite Hfree. msimpl.
  destruct st as [ss pr th q a l ck em er g rd sr]; cbn in *; subst.
  destruct pr as [pr|]; cbn;
    [destruct (returncode pr); cbn; [|destruct (term env); cbn]|];
    (destruct th as [[|]|]; cbn; [destruct (join_exits env); cbn| |]);
    eexists; (split; [reflexivity|]); repeat split; reflexivity.
Qed.

Lemma preemption_cancel_step (env : SendEnv) (p p' : string) (ho : JValue)
      (st : Emigo) (c' : Context) :
  active_interaction_session st = Some p' →
  p' ≠ "" →
  confirm env = ConfirmYes →
  llm_worker_lock st = false →
  worker_output_queue st = [] →
  sessions st !! p' = Some c' →
  last_is_dict (history c') = true →
  ∃ sc,
    cancel_llm_interaction W (cancel_env env) p'
      (set_emacs (emacs st ++ [preemption_question p' ho]) st)
    = Ret (restart_succeeds (cancel_env env)) sc
    ∧ active_interaction_session sc = None
    ∧ llm_worker_lock sc = false
    ∧ (∀ q, q ≠ p' → sessions sc !! q = sessions st !! q)
    ∧ (if restart_succeeds (cancel_env env) then
         llm_worker_process sc = Some (mkPopen (S (generation st)) None false [])
         ∧ worker_output_queue sc = []
       else
         running (llm_worker_process sc) = false
         ∧ sessions sc = sessions st)
    ∧ confirm_preemption W env p ho st
      = if restart_succeeds (cancel_env env) then Ret true sc
        else Ret false
               (set_emacs
                  (emacs sc ++ [message_emacs
                     "[Emigo Error] Failed to cancel previous interaction."]) sc).
Proof.
  intros Hact Hne Hyes Hfree Hq Hc Hdict.
  set (sq := set_emacs (emacs st ++ [preemption_question p' ho]) st).
  destruct (cancel_outcome W (cancel_env env) p' sq Hact Hfree)
    as (st1 & Hstop & Hgen1 & Hafter).
  destruct (stop_idle_spec (c_stop (cancel_env env)) sq Hfree Hq)
    as (st1' & Hstop' & Hs1 & _).
  rewrite Hstop in Hstop'. injection Hstop' as <-. cbn in Hs1.
  destruct (Hafter c') as (sc & Hcancel & Hidle & Hlock & Hothers & Hcase);
    [now rewrite Hs1|exact Hdict|].
  exists sc. split; [exact Hcancel|]. split; [exact Hidle|]. split; [exact Hlock|].
  split; [intros q Hq'; rewrite Hothers by exact Hq'; now rewrite Hs1|].
  split.
  - destruct (restart_succeeds (cancel_env env)).
    + destruct Hcase as (Hp & _ & Hqq & _). split; assumption.
    + destruct Hcase as (Hr & Hs). split; [exact Hr|]. now rewrite Hs, Hs1.
  - unfold confirm_preemption. msimpl.
    assert (Htruthy : active_truthy st = true).
    { unfold active_truthy. rewrite Hact.
      destruct (String.eqb_spec p' ""); [contradiction|reflexivity]. }
    rewrite Htruthy, Hact, Hyes. cbn -[cancel_llm_interaction].
    fold (preemption_question p' ho). fold sq. rewrite Hcancel.
    destruct (restart_succeeds (cancel_env env)); reflexivity.
Qed.

(** X6. A prompt for [p] while an interaction is active for [p'], the user
    agreeing to stop it and the restart failing: the new request is
    dropped.  [emigo_send] returns; no interaction is active; no session
    record has changed (the prompt was not appended, and the user turn
    of the stopped interaction is still there); no worker is running and
    the last word to the front end is that the cancellation failed. *)
Theorem failed_preemption_drops_request (env : SendEnv) (p p' prompt : string)
        (ho : JValue) (st : Emigo) (c' : Context) :
  active_interaction_session st = Some p' →
  p' ≠ "" →
  (truthy ho = true → is_list ho = true) →
  confirm env = ConfirmYes →
  llm_worker_lock st = false →
  worker_output_queue st = [] →
  sessions st !! p' = Some c' →
  last_is_dict (history c') = true →
  restart_succeeds (cancel_env env) = false →
  ∃ st',
    emigo_send W env p prompt ho st = Ret tt st'
    ∧ active_interaction_session st' = None
    ∧ sessions st' = sessions st
    ∧ running (llm_worker_process st') = false
    ∧ last (emacs st')
      = Some (message_emacs "[Emigo Error] Failed to cancel previous interaction.").
Proof.
  intros Hact Hne Hty Hyes Hfree Hq Hc Hdict Hfail.
  assert (Hpre : truthy ho && negb (is_list ho) = false).
  { destruct (truthy ho); [rewrite Hty by reflexivity|]; reflexivity. }
  destruct (preemption_cancel_step env p p' ho st c' Hact Hne Hyes Hfree Hq Hc Hdict)
    as (sc & _ & Hidle & _ & _ & Hcase & Hconfirm).
  rewrite Hfail in Hcase, Hconfirm. destruct Hcase as [Hdead Hsame].
  unfold emigo_send. rewrite Hpre. unfold mbind at 1, M_bind at 1.
  rewrite Hconfirm. cbn.
  eexists. split; [reflexivity|]. cbn. repeat split; try assumption.
  apply last_snoc.
Qed.

(** X7. A prompt for [p] while an interaction is active for [p'], the user
    agreeing to stop it and the restart succeeding, the directory of [p]
    being there, the model well formed and the write succeeding:
    [emigo_send] returns with the gate busy with [p]; the worker is the
    new process, and all it was sent is the one request for [p]; the
    history of [p] ends with the user turn of the prompt. *)
Theorem confirmed_preemption_replaces_interaction (env : SendEnv)
        (p p' prompt : string) (ho : JValue) (st : Emigo) (c' : Context)
        (model base_url api_key : option string) (rest : list (option string)) :
  active_interaction_session st = Some p' →
  p' ≠ "" →
  truthy ho = false →
  confirm env = ConfirmYes →
  llm_worker_lock st = false →
  worker_output_queue st = [] →
  sessions st !! p' = Some c' →
  last_is_dict (history c') = true →
  restart_succeeds (cancel_env env) = true →
  isdir W p = true →
  vars_result env = model :: base_url :: api_key :: rest →
  model_invalid model = false →
  write (worker_env env) = WriteOk →
  ∃ st' c s,
    emigo_send W env p prompt ho st = Ret tt st'
    ∧ active_interaction_session st' = Some p
    ∧ sessions st' !! p = Some c
    ∧ last (Ctx.messages c) = Some (user_turn_of prompt)
    ∧ llm_worker_process st'
      = Some (mkPopen (S (generation st)) None false
                [JDict (interaction_request c (JStr prompt) model base_url api_key s)]).
Proof.
  intros Hact Hne Hfalsy Hyes Hfree Hq Hc Hdict Hok Hdir Hvars Hmodel Hwrite.
  destruct (preemption_cancel_step env p p' ho st c' Hact Hne Hyes Hfree Hq Hc Hdict)
    as (sc & _ & Hidle & Hlock & _ & Hcase & Hconfirm).
  rewrite Hok in Hcase, Hconfirm. destruct Hcase as [Hproc Hqueue].
  assert (Hidle' : active_truthy sc = false).
  { unfold active_truthy. now rewrite Hidle. }
  (* from the cancelled state on, the call is a submission while idle *)
  assert (Hsame : emigo_send W env p prompt ho st = emigo_send W env p prompt ho sc).
  { assert (Hgo : confirm_preemption W env p ho sc = Ret true sc).
    { unfold confirm_preemption. msimpl. now rewrite Hidle'. }
    unfold emigo_send. rewrite Hfalsy. cbn [andb].
    now rewrite (bind_ret_eq _ _ _ _ _ Hconfirm), (bind_ret_eq _ _ _ _ _ Hgo). }
  rewrite Hsame.
  destruct (submit_reaches_send W env p prompt ho sc model base_url api_key rest
              Hidle' Hfalsy Hdir Hvars Hmodel)
    as (st2 & c2 & s & -> & Hc2 & Hm2 & Ho2 & Ha2 & Hp2 & Hq2 & Hl2).
  rewrite (send_to_live_worker W (worker_env env) _ st2
             (mkPopen (S (generation st)) None false []));
    [|congruence|congruence|reflexivity..|assumption].
  eexists _, c2, s. split; [reflexivity|]. cbn.
  repeat split; try assumption.
  rewrite Hm2. apply last_snoc.
Qed.

(** X8. A prompt while an interaction is active, the question to the user
    failing: the request is dropped.  [emigo_send] returns after telling
    the front end that it could not ask; the interaction goes on, and the
    session records, the worker and the queue are as before. *)
Theorem failed_confirmation_drops_request (env : SendEnv) (p p' prompt : string)
        (ho : JValue) (e : string) (st : Emigo) :
  active_interaction_session st = Some p' →
  p' ≠ "" →
  (truthy ho = true → is_list ho = true) →
  confirm env = ConfirmRaises e →
  ∃ st',
    emigo_send W env p prompt ho st = Ret tt st'
    ∧ active_interaction_session st' = Some p'
    ∧ sessions st' = sessions st
    ∧ llm_worker_process st' = llm_worker_process st
    ∧ worker_output_queue st' = worker_output_queue st
    ∧ emacs st'
      = emacs st
          ++ [preemption_question p' ho;
              message_emacs
                ("[Emigo Error] Failed to ask for cancellation confirmation: " ++ e)].
Proof.
  intros Hact Hne Hty Hraise.
  assert (Hpre : truthy ho && negb (is_list ho) = false).
  { destruct (truthy ho); [rewrite Hty by reflexivity|]; reflexivity. }
  assert (Htruthy : active_truthy st = true).
  { unfold active_truthy. rewrite Hact.
    destruct (String.eqb_spec p' ""); [contradiction|reflexivity]. }
  unfold emigo_send. rewrite Hpre. unfold confirm_preemption. msimpl.
  rewrite Htruthy, Hact, Hraise. cbn.
  eexists. split; [reflexivity|]. cbn. rewrite <- app_assoc.
  repeat split. exact Hact.
Qed.

End Preemption.

(** X6 on a prompt for [/b] while [/a] is busy. *)
Lemma failed_preemption_drops_request_witness :
  ∃ st',
    emigo_send Demo.world Scenario.send_restart_fails "/b" "yo" JNull Demo.busy_a
    = Ret tt st'
    ∧ active_interaction_session st' = None
    ∧ sessions st' = sessions Demo.busy_a
    ∧ running (llm_worker_process st') = false
    ∧ last (emacs st')
      = Some (message_emacs "[Emigo Error] Failed to cancel previous interaction.").
Proof.
  eapply (failed_preemption_drops_request Demo.world Scenario.send_restart_fails
            "/b" "/a" "yo" JNull Demo.busy_a);
    first [discriminate | vm_compute; reflexivity].
Defined.

(** X7 on a prompt for [/b] while [/a] is busy. *)
Lemma confirmed_preemption_replaces_interaction_witness :
  ∃ st',
    emigo_send Demo.world Demo.send_ok "/b" "yo" JNull Demo.busy_a = Ret tt st'
    ∧ active_interaction_session st' = Some "/b"
    ∧ (pid <$> llm_worker_process st') = Some (S (generation Demo.busy_a)).
Proof.
  edestruct (confirmed_preemption_replaces_interaction Demo.world Demo.send_ok
               "/b" "/a" "yo" JNull Demo.busy_a)
    as (st' & c & s & Hrun & Hact & _ & _ & Hproc);
    [vm_compute; reflexivity | discriminate | vm_compute; reflexivity..|].
  exists st'. rewrite Hproc. repeat split; assumption.
Defined.

(** X8 on a prompt for [/b] while [/a] is busy. *)
Lemma failed_confirmation_drops_request_witness :
  ∃ st',
    emigo_send Demo.world Scenario.send_confirm_raises "/b" "yo" JNull Demo.busy_a
    = Ret tt st'
    ∧ active_interaction_session st' = Some "/a"
    ∧ sessions st' = sessions Demo.busy_a
    ∧ llm_worker_process st' = llm_worker_process Demo.busy_a
    ∧ worker_output_queue st' = worker_output_queue Demo.busy_a
    ∧ emacs st'
      = emacs Demo.busy_a
          ++ [preemption_question "/a" JNull;
              message_emacs
                ("[Emigo Error] Failed to ask for cancellation confirmation: "
                   ++ "epc timeout")].
Proof.
  apply (failed_confirmation_drops_request Demo.world Scenario.send_confirm_raises
           "/b" "/a" "yo" JNull "epc timeout" Demo.busy_a);
    first [discriminate | vm_compute; reflexivity].
Defined.

(** ** Revised histories and rejected requests *)

Lemma bind_ext {A B} (m : M A) (k k' : A → M B) (st : Emigo) :
  (∀ a s, k a s = k' a s) → (x ← m; k x) st = (x ← m; k' x) st.
Proof.
  intros H. unfold mbind, M_bind. destruct (m st); [apply H|reflexivity..].
Qed.

Section Override.

Variable W : World.

(** X9. A history override that is falsy in Python (an empty list, [None],
    [0], [False], an empty string or dict) is no override: the call does
    what the same call without an override does, so the prompt is
    appended and the stored history is kept. *)
Theorem empty_override_is_a_plain_prompt (env : SendEnv) (p prompt : string)
        (ho : JValue) (st : Emigo) :
  truthy ho = false →
  emigo_send W env p prompt ho st = emigo_send W env p prompt JNull st.
Proof.
  intros Hfalsy. unfold emigo_send, confirm_preemption. rewrite Hfalsy.
  cbn [truthy andb]. destruct ho as [| | | |[|m ms]|]; try reflexivity.
  discriminate Hfalsy.
Qed.

(** X10. With a non-empty history override the prompt argument plays no
    part: two calls that differ in the prompt alone end alike, whatever
    the state and whatever the front end and the worker answer. *)
Theorem revised_history_ignores_prompt (env : SendEnv) (p prompt prompt' : string)
        (m : JValue) (ms : list JValue) (st : Emigo) :
  emigo_send W env p prompt (JList (m :: ms)) st
  = emigo_send W env p prompt' (JList (m :: ms)) st.
Proof.
  unfold emigo_send. cbn [truthy is_list andb negb].
  apply bind_ext. intros [|] s; [|reflexivity].
  cbn [negb]. msimpl.
  cbn -[_get_or_create_context prepare_history build_and_send].
  destruct (isdir W p) eqn:Hdir.
  - destruct (get_or_create_spec W p (set_active (Some p) s) Hdir) as (c & -> & _).
    cbn -[prepare_history build_and_send].
    match goal with
    | |- context [prepare_history W p prompt (JList (m :: ms)) ?s0] =>
        destruct (prepare_history_spec W p prompt (JList (m :: ms)) s0 c)
          as (s' & st1 & Hprep & Hm1 & _); [cbn; apply lookup_insert_eq|];
        change (prepare_history W p prompt' (JList (m :: ms)) s0)
          with (prepare_history W p prompt (JList (m :: ms)) s0)
    end.
    rewrite Hprep. cbn -[build_and_send].
    destruct (vars_result env) as [|model [|base_url [|api_key rest]]];
      try reflexivity.
    destruct (model_invalid model); [reflexivity|].
    unfold build_and_send. msimpl. cbn -[_send_to_worker].
    unfold stored_messages in Hm1.
    destruct (sessions st1 !! p) as [c2|]; [|reflexivity].
    cbn in Hm1. injection Hm1 as Hm1. unfold Ctx.messages in Hm1.
    destruct (last (history c2)) as [[ts v]|] eqn:Hlast.
    + destruct v; reflexivity.
    + apply last_None in Hlast. rewrite Hlast in Hm1. discriminate Hm1.
  - unfold _get_or_create_context. rewrite Hdir. reflexivity.
Qed.

(** X11. A request for a path that is no directory, made while no
    interaction is active: [emigo_send] tells the front end twice (the
    message of [_get_or_create_context], then the flush under the name
    [invalid-context-p]) and returns with no interaction active; no
    session record is made and nothing goes to the worker. *)
Theorem invalid_path_submit_is_rejected (env : SendEnv) (p prompt : string)
        (ho : JValue) (st : Emigo) :
  active_truthy st = false →
  (truthy ho = true → is_list ho = true) →
  isdir W p = false →
  ∃ st',
    emigo_send W env p prompt ho st = Ret tt st'
    ∧ active_interaction_session st' = None
    ∧ sessions st' = sessions st
    ∧ llm_worker_process st' = llm_worker_process st
    ∧ worker_output_queue st' = worker_output_queue st
    ∧ emacs st'
      = emacs st
          ++ [eval_in_emacs "message"
                [JStr ("[Emigo Error] Invalid context path: " ++ p)];
              eval_in_emacs "emigo--flush-buffer"
                [JStr ("invalid-context-" ++ p);
                 JStr ("[Error: Invalid context path '" ++ p ++ "']");
                 JStr "error"]].
Proof.
  intros Hidle Hty Hdir.
  assert (Hpre : truthy ho && negb (is_list ho) = false).
  { destruct (truthy ho); [rewrite Hty by reflexivity|]; reflexivity. }
  unfold emigo_send, confirm_preemption, _get_or_create_context.
  rewrite Hpre, Hdir. msimpl. rewrite Hidle. cbn.
  eexists. split; [reflexivity|]. cbn. rewrite <- app_assoc. repeat split.
Qed.

(** X12. A revised history accepted while no interaction is active, its
    last entry a dict, the worker alive: the stored history of [p] is the
    override, entry for entry; the request written to the worker carries
    as its prompt the [content] of the last entry of the override (the
    empty string if it has none); the gate is busy with [p]. *)
Theorem revised_history_is_sent (env : SendEnv) (p prompt : string)
        (m : JValue) (ms : list JValue) (d : list (string * JValue))
        (st : Emigo) (pr : Popen) (model base_url api_key : option string)
        (rest : list (option string)) :
  active_truthy st = false →
  last (m :: ms) = Some (JDict d) →
  isdir W p = true →
  vars_result env = model :: base_url :: api_key :: rest →
  model_invalid model = false →
  llm_worker_lock st = false →
  llm_worker_process st = Some pr →
  returncode pr = None →
  stdin_closed pr = false →
  write (worker_env env) = WriteOk →
  ∃ st' c' s,
    emigo_send W env p prompt (JList (m :: ms)) st = Ret tt st'
    ∧ active_interaction_session st' = Some p
    ∧ sessions st' !! p = Some c'
    ∧ Ctx.messages c' = m :: ms
    ∧ (∀ q, q ≠ p → sessions st' !! q = sessions st !! q)
    ∧ llm_worker_process st'
      = Some (mkPopen (pid pr) None false
                (stdin_written pr
                   ++ [JDict (interaction_request c'
                                (get_default "content" (JStr "") d)
                                model base_url api_key s)])).
Proof.
  intros Hidle Hlast Hdir Hvars Hok Hfree Hproc Hrun Hopen Hwrite.
  unfold emigo_send. cbn [truthy is_list andb negb].
  unfold confirm_preemption. msimpl. rewrite Hidle.
  cbn -[_get_or_create_context prepare_history build_and_send].
  destruct (get_or_create_spec W p (set_active (Some p) st) Hdir) as (c & -> & _).
  cbn -[prepare_history build_and_send].
  match goal with
  | |- context [prepare_history W p prompt (JList (m :: ms)) ?s0] =>
      pose proof (lock_prepare_history W p prompt (JList (m :: ms)) s0) as Hlock;
      destruct (prepare_history_spec W p prompt (JList (m :: ms)) s0 c)
        as (s' & st1 & Hprep & Hm1 & Ho1 & Hp1 & Hq1 & Ha1 & _);
        [cbn; apply lookup_insert_eq|]
  end.
  unfold respects, lock_kept in Hlock. rewrite Hprep in Hlock. rewrite Hprep.
  cbn in Ho1, Hp1, Hq1, Ha1, Hlock.
  cbn -[build_and_send]. rewrite Hvars, Hok.
  unfold build_and_send. msimpl. cbn -[_send_to_worker].
  unfold stored_messages in Hm1.
  destruct (sessions st1 !! p) as [c2|] eqn:Hc2; [|discriminate Hm1].
  cbn in Hm1. injection Hm1 as Hm1.
  assert (Hl2 : ∃ ts, last (history c2) = Some (ts, JDict d)).
  { unfold Ctx.messages in Hm1.
    destruct (last (history c2)) as [[ts y]|] eqn:Hl.
    - apply last_Some in Hl as [h' Hh]. rewrite Hh, map_app in Hm1. cbn in Hm1.
      rewrite <- Hm1, last_snoc in Hlast. injection Hlast as ->. eauto.
    - apply last_None in Hl. rewrite Hl in Hm1. discriminate Hm1. }
  destruct Hl2 as [ts ->]. cbn -[_send_to_worker].
  fold (interaction_request c2 (get_default "content" (JStr "") d)
          model base_url api_key s').
  rewrite (send_to_live_worker W (worker_env env) _ _ pr);
    [|cbn; congruence|cbn; congruence|assumption..].
  eexists _, c2, s'. split; [reflexivity|]. cbn.
  split; [congruence|]. split; [exact Hc2|]. split; [exact Hm1|].
  split; [|reflexivity].
  intros q Hq. rewrite Ho1 by exact Hq. now rewrite lookup_insert_ne by congruence.
Qed.

End Override.

(** X9 on an empty list as override. *)
Lemma empty_override_is_a_plain_prompt_witness :
  emigo_send Demo.world Demo.send_ok "/a" "hi" (JList []) Demo.started
  = emigo_send Demo.world Demo.send_ok "/a" "hi" JNull Demo.started.
Proof.
  apply (empty_override_is_a_plain_prompt Demo.world Demo.send_ok "/a" "hi"
           (JList []) Demo.started).
  reflexivity.
Defined.

(** X11 on a path that is no directory. *)
Lemma invalid_path_submit_is_rejected_witness :
  ∃ st',
    emigo_send Demo.world Demo.send_ok "/nowhere" "hi" JNull Demo.started
    = Ret tt st'
    ∧ active_interaction_session st' = None
    ∧ sessions st' = sessions Demo.started.
Proof.
  destruct (invalid_path_submit_is_rejected Demo.world Demo.send_ok "/nowhere" "hi"
              JNull Demo.started)
    as (st' & Hrun & Hact & Hs & _);
    [vm_compute; reflexivity | discriminate | vm_compute; reflexivity |].
  exists st'. repeat split; assumption.
Defined.

(** X12 on a history of three turns sent back for [/a]. *)
Lemma revised_history_is_sent_witness :
  ∃ st',
    emigo_send Demo.world Demo.send_ok "/a" "ignored" (JList Scenario.revised)
      Demo.started = Ret tt st'
    ∧ active_interaction_session st' = Some "/a"
    ∧ stored_messages st' "/a" = Some Scenario.revised.
Proof.
  destruct (revised_history_is_sent Demo.world Demo.send_ok "/a" "ignored"
              (Demo.user_turn "hi")
              [Demo.assistant_turn "hello"; Demo.user_turn "again"]
              [("role", JStr "user"); ("content", JStr "again")]
              Demo.started (mkPopen 1 None false [])
              (Some "openai/gpt-4o") None (Some "key") [])
    as (st' & c' & s & Hrun & Hact & Hc & Hm & _);
    try (vm_compute; reflexivity).
  exists st'. unfold stored_messages. rewrite Hc. cbn. rewrite Hm.
  repeat split; assumption.
Defined.

(** ** The branches of the router *)

Section RouterBranches.

Variable W : World.

(** What is queued plays no part in the processing of a line. *)
Lemma process_line_queue_indep (line : string) (q : list QItem) (st : Emigo) :
  final_state (process_line W line (set_queue q st))
  = set_queue q (final_state (process_line W line st)).
Proof.
  unfold process_line, route_message, route_stream, route_finished, route_error,
    _get_or_create_context, update_context, clear_active_if.
  msimpl. cbn.
  repeat (case_match; simplify_eq/=); reflexivity.
Qed.

(** X13. Only a [finished] message changes a session record: a line that
    is anything else (no JSON, no object, or an object of another type)
    is processed to the end and leaves every stored history, and the
    clock that stamps them, as they were. *)
Theorem only_finished_messages_change_sessions (line : string) (st : Emigo) :
  (∀ d, json_loads W line = Some (JDict d) →
        is_str (get "type" d) "finished" = false) →
  ∃ st',
    process_line W line st = Ret tt st'
    ∧ sessions st' = sessions st
    ∧ clock st' = clock st.
Proof.
  intros Hother. unfold process_line. msimpl.
  destruct (json_loads W line) as [[| | | | |d]|]; cbn;
    try (eexists; split; [reflexivity|split; reflexivity]).
  specialize (Hother d eq_refl).
  unfold route_message, route_stream, route_error, clear_active_if.
  rewrite Hother. msimpl. cbn.
  repeat (case_match; simplify_eq/=);
    eexists; (split; [reflexivity|split; reflexivity]).
Qed.

(** X14. An [error] message for the session [p]: the front end is shown
    the worker's message as an error chunk of [p], the binding is cleared
    if and only if it names [p], and no session record, worker or queue
    entry changes. *)
Theorem error_message_releases_gate (line : string) (d : list (string * JValue))
        (p : string) (st : Emigo) :
  json_loads W line = Some (JDict d) →
  get "type" d = JStr "error" →
  get "session" d = JStr p →
  p ≠ "" →
  ∃ st',
    process_line W line st = Ret tt st'
    ∧ active_interaction_session st'
      = cleared_if_names p (active_interaction_session st)
    ∧ emacs st'
      = emacs st
          ++ [eval_in_emacs "emigo--flush-buffer"
                [JStr p;
                 JStr ("[Worker Error: "
                         ++ fmt W (get_default "message"
                                     (JStr "Unknown error from worker") d)
                         ++ "]");
                 JStr "error"]]
    ∧ sessions st' = sessions st
    ∧ llm_worker_process st' = llm_worker_process st
    ∧ worker_output_queue st' = worker_output_queue st.
Proof.
  intros Hload Htype Hsession Hne.
  unfold process_line, route_message, route_error, clear_active_if. msimpl.
  rewrite Hload, Htype, Hsession. cbn.
  destruct (String.eqb_spec p ""); [contradiction|]. cbn.
  unfold cleared_if_names.
  destruct (active_interaction_session st) as [a|] eqn:Ha; cbn.
  - destruct (String.eqb_spec a p) as [->|Hap].
    + rewrite bool_decide_eq_true_2 by reflexivity.
      eexists. split; [reflexivity|]. cbn. repeat split.
    + rewrite bool_decide_eq_false_2 by congruence.
      eexists. split; [reflexivity|]. cbn. repeat split. exact Ha.
  - rewrite bool_decide_eq_false_2 by discriminate.
    eexists. split; [reflexivity|]. cbn. repeat split. exact Ha.
Qed.

(** X15. A [stream] chunk goes to the front end and nowhere else: one
    flush for the session with the content filtered (left as it is for
    the role [tool_json_args]), or nothing when the content shown is
    empty and the role is not [tool_json]; the gate, the session records
    and the log are as before. *)
Theorem stream_chunk_only_reaches_front_end (line : string)
        (d : list (string * JValue)) (st : Emigo) :
  json_loads W line = Some (JDict d) →
  get "type" d = JStr "stream" →
  truthy (get "session" d) = true →
  let role := get_default "role" (JStr "llm") d in
  let content := get_default "content" (JStr "") d in
  let shown :=
    if is_str role "tool_json_args" then content else _filter_context W content in
  process_line W line st
  = Ret tt
      (if truthy shown || is_str role "tool_json" then
         set_emacs
           (emacs st
              ++ [eval_in_emacs "emigo--flush-buffer" [get "session" d; shown; role]])
           st
       else st).
Proof.
  intros Hload Htype Hsession. cbn zeta.
  unfold process_line, route_message, route_stream. msimpl.
  rewrite Hload, Htype, Hsession. cbn.
  destruct (is_str (get_default "role" (JStr "llm") d) "tool_json_args"); cbn;
    destruct (_ || _); reflexivity.
Qed.

(** X16. Messages the router drops: an object without a session (whatever
    its type, [finished] included), and an object with a session whose
    type is none of [stream], [finished], [error] ([pong] for one).
    Neither changes a session record, the gate, what the front end was
    told, the worker or the queue. *)
Theorem dropped_messages_change_nothing (line : string)
        (d : list (string * JValue)) (st : Emigo) :
  json_loads W line = Some (JDict d) →
  truthy (get "session" d) = false
  ∨ (is_str (get "type" d) "stream" = false
     ∧ is_str (get "type" d) "finished" = false
     ∧ is_str (get "type" d) "error" = false) →
  ∃ st',
    process_line W line st = Ret tt st'
    ∧ sessions st' = sessions st
    ∧ active_interaction_session st' = active_interaction_session st
    ∧ emacs st' = emacs st
    ∧ llm_worker_process st' = llm_worker_process st
    ∧ worker_output_queue st' = worker_output_queue st.
Proof.
  intros Hload Hdrop. unfold process_line, route_message. msimpl.
  rewrite Hload.
  destruct Hdrop as [Hsession | (Hs & Hf & He)].
  - rewrite Hsession. cbn. eexists. split; [reflexivity|]. repeat split.
  - rewrite Hs, Hf, He.
    destruct (truthy (get "session" d)); cbn;
      [destruct (is_str (get "type" d) "pong")|];
      eexists; (split; [reflexivity|]); repeat split.
Qed.

(** X17. The router takes the queue in order: a run over [q1 ++ q2], when
    [q1] holds no sentinel, is the run over [q2] from the state the run
    over [q1] ends in. *)
Theorem router_handles_queue_in_order (q1 q2 : list QItem) (st : Emigo) :
  Forall (fun it => q_line it ≠ None) q1 →
  router_loop W (q1 ++ q2) st = router_loop W q2 (router_loop W q1 st).2.
Proof.
  intros Hlines. revert st.
  induction Hlines as [|it q1 Hit _ IH]; intros st.
  - cbn. destruct q2 as [|it2 q2]; reflexivity.
  - cbn [app router_loop]. unfold router_item.
    destruct (q_line it) as [line|]; [|contradiction].
    rewrite IH. f_equal. f_equal.
    rewrite !process_line_queue_indep.
    destruct q1 as [|it1 q1]; cbn [router_loop].
    + destruct (final_state (process_line W line st)); reflexivity.
    + unfold router_item. destruct (q_line it1); reflexivity.
Qed.

(** X18. The router stops at the first sentinel: the entries behind it
    are not dispatched and stay in the queue. *)
Theorem entries_behind_sentinel_stay_queued (q1 q2 : list QItem) (g : nat)
        (st : Emigo) :
  Forall (fun it => q_line it ≠ None) q1 →
  (router_loop W (q1 ++ mkQItem g None :: q2) st).1 = Stopped
  ∧ worker_output_queue (router_loop W (q1 ++ mkQItem g None :: q2) st).2 = q2.
Proof.
  intros Hlines. revert st.
  induction Hlines as [|it q1 Hit _ IH]; intros st.
  - split; reflexivity.
  - cbn [app router_loop]. unfold router_item.
    destruct (q_line it) as [line|]; [|contradiction].
    apply IH.
Qed.

End RouterBranches.

(** X13 on a chunk of output. *)
Lemma only_finished_messages_change_sessions_witness :
  ∃ st',
    process_line Demo.world (Demo.dumps Demo.msg_stream) Demo.busy_a = Ret tt st'
    ∧ sessions st' = sessions Demo.busy_a
    ∧ clock st' = clock Demo.busy_a.
Proof.
  apply (only_finished_messages_change_sessions Demo.world
           (Demo.dumps Demo.msg_stream) Demo.busy_a).
  intros d Hd. vm_compute in Hd. injection Hd as <-. reflexivity.
Defined.

(** X14 on an error of the worker for the active session [/a]. *)
Lemma error_message_releases_gate_witness :
  ∃ st',
    process_line Demo.world (Demo.dumps Demo.msg_error) Demo.busy_a = Ret tt st'
    ∧ active_interaction_session st' = None
    ∧ sessions st' = sessions Demo.busy_a.
Proof.
  destruct (error_message_releases_gate Demo.world (Demo.dumps Demo.msg_error)
              [("type", JStr "error"); ("session", JStr "/a");
               ("message", JStr "boom")] "/a" Demo.busy_a)
    as (st' & Hrun & Hact & _ & Hs & _);
    [vm_compute; reflexivity | reflexivity | reflexivity | discriminate |].
  exists st'. split; [exact Hrun|]. split; [|exact Hs].
  rewrite Hact. vm_compute. reflexivity.
Defined.

(** X15 on a chunk of output for [/a]. *)
Lemma stream_chunk_only_reaches_front_end_witness :
  process_line Demo.world (Demo.dumps Demo.msg_stream) Demo.busy_a
  = Ret tt
      (set_emacs
         (emacs Demo.busy_a
            ++ [eval_in_emacs "emigo--flush-buffer"
                  [JStr "/a"; JStr "partial answer"; JStr "llm"]])
         Demo.busy_a).
Proof.
  rewrite (stream_chunk_only_reaches_front_end Demo.world
             (Demo.dumps Demo.msg_stream)
             [("type", JStr "stream"); ("session", JStr "/a");
              ("role", JStr "llm"); ("content", JStr "partial answer")]
             Demo.busy_a);
    [reflexivity | vm_compute; reflexivity | reflexivity | reflexivity].
Defined.

(** X16 on an end of interaction that names no session. *)
Lemma dropped_messages_change_nothing_witness :
  ∃ st',
    process_line Scenario.world (Demo.dumps Scenario.msg_no_session) Demo.busy_a
    = Ret tt st'
    ∧ sessions st' = sessions Demo.busy_a
    ∧ active_interaction_session st' = active_interaction_session Demo.busy_a
    ∧ emacs st' = emacs Demo.busy_a
    ∧ llm_worker_process st' = llm_worker_process Demo.busy_a
    ∧ worker_output_queue st' = worker_output_queue Demo.busy_a.
Proof.
  apply (dropped_messages_change_nothing Scenario.world
           (Demo.dumps Scenario.msg_no_session)
           [("type", JStr "finished"); ("status", JStr "success")] Demo.busy_a).
  - vm_compute. reflexivity.
  - left. reflexivity.
Defined.

(** X17 on a chunk followed by an error. *)
Lemma router_handles_queue_in_order_witness :
  router_loop Demo.world
    ([mkQItem 1 (Some (Demo.dumps Demo.msg_stream))]
       ++ [mkQItem 1 (Some (Demo.dumps Demo.msg_error))]) Demo.busy_a
  = router_loop Demo.world [mkQItem 1 (Some (Demo.dumps Demo.msg_error))]
      (router_loop Demo.world [mkQItem 1 (Some (Demo.dumps Demo.msg_stream))]
         Demo.busy_a).2.
Proof.
  apply (router_handles_queue_in_order Demo.world
           [mkQItem 1 (Some (Demo.dumps Demo.msg_stream))]
           [mkQItem 1 (Some (Demo.dumps Demo.msg_error))] Demo.busy_a).
  repeat constructor. discriminate.
Defined.

(** X18 on a chunk, a sentinel and the answer behind it. *)
Lemma entries_behind_sentinel_stay_queued_witness :
  (router_loop Demo.world
     ([mkQItem 1 (Some (Demo.dumps Demo.msg_stream))]
        ++ mkQItem 1 None :: [mkQItem 2 (Some (Demo.dumps Demo.msg_finished))])
     Demo.busy_a).1 = Stopped
  ∧ worker_output_queue
      (router_loop Demo.world
         ([mkQItem 1 (Some (Demo.dumps Demo.msg_stream))]
            ++ mkQItem 1 None :: [mkQItem 2 (Some (Demo.dumps Demo.msg_finished))])
         Demo.busy_a).2
    = [mkQItem 2 (Some (Demo.dumps Demo.msg_finished))].
Proof.
  apply (entries_behind_sentinel_stay_queued Demo.world
           [mkQItem 1 (Some (Demo.dumps Demo.msg_stream))]
           [mkQItem 2 (Some (Demo.dumps Demo.msg_finished))] 1 Demo.busy_a).
  repeat constructor. discriminate.
Defined.

(** ** Filtering a final history *)

Lemma set_item_keys (k : string) (v : JValue) (d : list (string * JValue)) :
  is_Some (lookup_item k d) → map fst (set_item k v d) = map fst d.
Proof.
  induction d as [|[k' v'] d IH]; cbn.
  - intros [x Hx]. discriminate Hx.
  - destruct (String.eqb k' k); cbn; [reflexivity|].
    intros H. now rewrite IH.
Qed.

Lemma lookup_set_item_other (k k' : string) (v : JValue) (d : list (string * JValue)) :
  k' ≠ k → lookup_item k' (set_item k v d) = lookup_item k' d.
Proof.
  intros Hne. induction d as [|[k0 v0] d IH]; cbn.
  - destruct (String.eqb_spec k k'); [congruence|reflexivity].
  - destruct (String.eqb_spec k0 k) as [->|Hk]; cbn.
    + destruct (String.eqb_spec k k'); [congruence|reflexivity].
    + now rewrite IH.
Qed.

(** X19. Filtering an entry of a final history changes its [content] and
    nothing else: an entry that is no dict, or a dict without [content],
    is kept as it is; a dict with [content] keeps its keys in their order
    and the value of every other key, and its [content] becomes the
    filtered text (of [str(content)] when it is no string). *)
Theorem filter_entry_changes_content_only (W : World) (msg : JValue) :
  match msg with
  | JDict d =>
      match lookup_item "content" d with
      | Some c =>
          ∃ d',
            filter_entry W msg = JDict d'
            ∧ map fst d' = map fst d
            ∧ (∀ k, k ≠ "content" → lookup_item k d' = lookup_item k d)
            ∧ lookup_item "content" d'
              = Some (_filter_context W
                        (if is_string c then c else JStr (py_str W c)))
      | None => filter_entry W msg = msg
      end
  | _ => filter_entry W msg = msg
  end.
Proof.
  destruct msg as [| | | | |d]; try reflexivity.
  unfold filter_entry. destruct (lookup_item "content" d) as [c|] eqn:Hc;
    [|reflexivity].
  eexists. split; [reflexivity|].
  split; [apply set_item_keys; rewrite Hc; eauto|].
  split; [intros k Hk; now apply lookup_set_item_other|].
  apply Facts.lookup_set_item.
Qed.

(** ** The pump, line by line *)

Section PumpContent.

Variable W : World.

Lemma pump_loop_lines (g : nat) (ls : list string) (rest : list Read) (st : Emigo) :
  Forall (fun l => l ≠ "") ls →
  from_option ends_stream true (head rest) = true →
  ∃ st',
    pump_loop W g (map ReadLine ls ++ rest) st = Ret tt st'
    ∧ worker_output_queue st' = worker_output_queue st ++ queued_lines W g ls
    ∧ sessions st' = sessions st
    ∧ active_interaction_session st' = active_interaction_session st
    ∧ emacs st' = emacs st
    ∧ llm_worker_process st' = llm_worker_process st.
Proof.
  intros Hls Hend. revert st. induction Hls as [|l ls Hl _ IH]; intros st.
  - cbn [map app queued_lines]. rewrite app_nil_r.
    destruct rest as [|[l|e|e] rest]; cbn in *.
    + eexists. split; [reflexivity|]. repeat split.
    + rewrite Hend. eexists. split; [reflexivity|]. repeat split.
    + munfold. eexists. split; [reflexivity|]. repeat split.
    + munfold. eexists. split; [reflexivity|]. repeat split.
  - cbn [map app pump_loop].
    destruct (String.eqb_spec l ""); [contradiction|].
    msimpl.
    match goal with
    | |- context [pump_loop W g _ ?s] =>
        destruct (IH s) as (st' & Hrun & Hq & Hs & Ha & He & Hp)
    end.
    exists st'. split; [exact Hrun|]. cbn in *.
    rewrite Hq, <- app_assoc. repeat split; assumption.
Qed.

(** X20. What the stdout pump queues: the lines read before the end of the
    stream (an empty read, a read that raises, or no more reads), each
    stripped, in the order read and tagged with the process; then one
    sentinel.  Nothing read after that is queued, and the pump changes
    nothing but the queue and the log. *)
Theorem pump_queues_lines_up_to_end_of_stream (ls : list string) (rest : list Read)
        (proc : Popen) (st : Emigo) :
  llm_worker_process st = Some proc →
  Forall (fun l => l ≠ "") ls →
  from_option ends_stream true (head rest) = true →
  ∃ st',
    _read_worker_stdout W (Some (map ReadLine ls ++ rest)) st = Ret tt st'
    ∧ worker_output_queue st'
      = worker_output_queue st
          ++ queued_lines W (pid proc) ls ++ [mkQItem (pid proc) None]
    ∧ sessions st' = sessions st
    ∧ active_interaction_session st' = active_interaction_session st
    ∧ emacs st' = emacs st
    ∧ llm_worker_process st' = llm_worker_process st.
Proof.
  intros Hproc Hls Hend.
  destruct (pump_loop_lines (pid proc) ls rest st Hls Hend)
    as (st1 & Hrun & Hq & Hs & Ha & He & Hp).
  unfold _read_worker_stdout. msimpl. rewrite Hproc, Hrun. cbn.
  eexists. split; [reflexivity|]. cbn.
  rewrite Hq, <- app_assoc. repeat split; congruence.
Qed.

End PumpContent.

(** X20 on two lines, the end of the stream, and a read that never
    happens. *)
Lemma pump_queues_lines_up_to_end_of_stream_witness :
  ∃ st',
    _read_worker_stdout Demo.world
      (Some (map ReadLine [" one "; "two"] ++ [ReadLine ""; ReadLine "late"]))
      Demo.started = Ret tt st'
    ∧ worker_output_queue st'
      = [mkQItem 1 (Some "one"); mkQItem 1 (Some "two"); mkQItem 1 None].
Proof.
  destruct (pump_queues_lines_up_to_end_of_stream Demo.world [" one "; "two"]
              [ReadLine ""; ReadLine "late"] (mkPopen 1 None false []) Demo.started)
    as (st' & Hrun & Hq & _);
    [vm_compute; reflexivity | repeat constructor; discriminate | reflexivity |].
  exists st'. split; [exact Hrun|]. rewrite Hq. vm_compute. reflexivity.
Defined.

(** ** Starting and stopping the worker *)

Section Supervisor.

Variable W : World.

(** X21. [_start_llm_worker] spawns only when no worker is running: with
    one running, the handle, the spawn count, the queue and what the
    front end was told are as before.  With none running, a spawn that
    raises or a process that is gone after the grace delay leaves the
    handle [None] and one error message for the front end; a process
    that stays, with both reader threads, becomes the handle, with
    nothing written to it yet.  The session records and the gate are
    never touched. *)
Theorem start_spawns_only_when_needed (o : SpawnOutcome) (st : Emigo) :
  llm_worker_lock st = false →
  ∃ st',
    _start_llm_worker o st = Ret tt st'
    ∧ sessions st' = sessions st
    ∧ active_interaction_session st' = active_interaction_session st
    ∧ llm_worker_lock st' = false
    ∧ (running (llm_worker_process st) = true →
       llm_worker_process st' = llm_worker_process st
       ∧ generation st' = generation st
       ∧ worker_output_queue st' = worker_output_queue st
       ∧ emacs st' = emacs st)
    ∧ (running (llm_worker_process st) = false →
       match o with
       | SpawnRaises _ | SpawnExited _ =>
           llm_worker_process st' = None
           ∧ worker_output_queue st' = worker_output_queue st
           ∧ ∃ text, emacs st' = emacs st ++ [message_emacs text]
       | SpawnAlive true true =>
           llm_worker_process st'
           = Some (mkPopen (S (generation st)) None false [])
           ∧ worker_output_queue st' = worker_output_queue st
           ∧ emacs st' = emacs st
       | SpawnAlive _ _ => emacs st' = emacs st
       end).
Proof.
  intros Hfree. unfold _start_llm_worker, with_lock. rewrite Hfree. msimpl.
  cbn. destruct (running (llm_worker_process st)) eqn:Hrun; cbn.
  - eexists. split; [reflexivity|]. cbn. repeat split. discriminate.
  - destruct o as [e|code|[|] [|]]; cbn;
      (eexists; split; [reflexivity|]; cbn;
       split; [reflexivity|]; split; [reflexivity|]; split; [reflexivity|];
       split; [discriminate|]; intros _; repeat split; eauto).
Qed.

(** [_stop_llm_worker] with no worker running and no router loop alive. *)
Lemma stop_nothing_to_stop (env : StopEnv) (st : Emigo) :
  llm_worker_lock st = false →
  running (llm_worker_process st) = false →
  worker_processor_thread st ≠ Some true →
  _stop_llm_worker W env st = Ret tt st.
Proof.
  intros Hfree Hdead Hthread.
  unfold _stop_llm_worker, with_lock. rewrite Hfree. msimpl.
  destruct st as [ss pr th q a l ck em er g rd sr]; cbn in *; subst.
  destruct pr as [pr|]; cbn in *;
    [destruct (returncode pr); [|discriminate]|];
    (destruct th as [[|]|]; [contradiction|reflexivity..]).
Qed.

(** X22. Stopping twice is stopping once: after [_stop_llm_worker] no
    worker runs and no router loop is taken for alive, so a second stop,
    whatever [terminate] and [join] would do, changes nothing. *)
Theorem stop_twice_is_stop_once (env env' : StopEnv) (st : Emigo) :
  llm_worker_lock st = false →
  (_stop_llm_worker W env;; _stop_llm_worker W env') st
  = _stop_llm_worker W env st.
Proof.
  intros Hfree.
  destruct (stop_spec W env st Hfree) as (st1 & Hstop & Hfree1 & Hdead1 & Hth1 & _).
  unfold mbind, M_bind. rewrite Hstop.
  apply stop_nothing_to_stop; assumption.
Qed.

(** X23. A cancel of the active session with nothing queued, the lock
    free: it returns whether the restart succeeded, and the gate is idle
    either way.  After a restart that succeeded the worker is a new
    process that has been sent nothing, the router loop is alive, the
    queue is empty and the front end was told of the cancellation last;
    after one that failed no worker is running and no session record has
    changed.  The records of other sessions are never touched. *)
Theorem cancel_leaves_gate_idle (env : CancelEnv) (p : string) (st : Emigo)
        (c : Context) :
  active_interaction_session st = Some p →
  llm_worker_lock st = false →
  worker_output_queue st = [] →
  sessions st !! p = Some c →
  last_is_dict (history c) = true →
  ∃ st',
    cancel_llm_interaction W env p st = Ret (restart_succeeds env) st'
    ∧ active_interaction_session st' = None
    ∧ llm_worker_lock st' = false
    ∧ (∀ q, q ≠ p → sessions st' !! q = sessions st !! q)
    ∧ if restart_succeeds env then
        llm_worker_process st' = Some (mkPopen (S (generation st)) None false [])
        ∧ worker_processor_thread st' = Some true
        ∧ worker_output_queue st' = []
        ∧ last (emacs st')
          = Some (eval_in_emacs "emigo--flush-buffer"
                    [JStr p; JStr (nl ++ "[Interaction cancelled by user.]" ++ nl);
                     JStr "warning"])
      else
        running (llm_worker_process st') = false
        ∧ sessions st' = sessions st.
Proof.
  intros Hact Hfree Hq Hc Hdict.
  destruct (cancel_outcome W env p st Hact Hfree) as (st1 & Hstop & _ & Hafter).
  destruct (stop_idle_spec W (c_stop env) st Hfree Hq) as (st1' & Hstop' & Hs1 & _).
  rewrite Hstop in Hstop'. injection Hstop' as <-.
  destruct (Hafter c) as (st' & Hcancel & Hidle & Hlock & Hothers & Hcase);
    [now rewrite Hs1|exact Hdict|].
  exists st'. split; [exact Hcancel|]. split; [exact Hidle|]. split; [exact Hlock|].
  split; [intros q Hq'; rewrite Hothers by exact Hq'; now rewrite Hs1|].
  destruct (restart_succeeds env).
  - destruct Hcase as (Hp & Ht & Hqq & _ & He). repeat split; assumption.
  - destruct Hcase as (Hr & Hs). split; [exact Hr|]. now rewrite Hs, Hs1.
Qed.

End Supervisor.

(** X21 on a second start while the worker is running. *)
Lemma start_spawns_only_when_needed_witness :
  ∃ st',
    _start_llm_worker (SpawnAlive true true) Demo.started = Ret tt st'
    ∧ llm_worker_process st' = llm_worker_process Demo.started.
Proof.
  destruct (start_spawns_only_when_needed (SpawnAlive true true) Demo.started)
    as (st' & Hrun & _ & _ & _ & Hsame & _); [vm_compute; reflexivity|].
  exists st'. split; [exact Hrun|]. apply Hsame. vm_compute. reflexivity.
Defined.

(** X22 in the middle of an interaction. *)
Lemma stop_twice_is_stop_once_witness :
  (_stop_llm_worker Demo.world Demo.stop_ok;;
   _stop_llm_worker Demo.world (mkStopEnv TermTimeout false)) Demo.busy_a
  = _stop_llm_worker Demo.world Demo.stop_ok Demo.busy_a.
Proof.
  apply (stop_twice_is_stop_once Demo.world Demo.stop_ok
           (mkStopEnv TermTimeout false) Demo.busy_a).
  vm_compute. reflexivity.
Defined.

(** X23 on a cancel of [/a] whose restart succeeds. *)
Lemma cancel_leaves_gate_idle_witness :
  ∃ st',
    cancel_llm_interaction Demo.world Demo.cancel_ok "/a" Demo.busy_a = Ret true st'
    ∧ active_interaction_session st' = None
    ∧ llm_worker_lock st' = false.
Proof.
  edestruct (cancel_leaves_gate_idle Demo.world Demo.cancel_ok "/a" Demo.busy_a)
    as (st' & Hrun & Hact & Hlock & _); try (vm_compute; reflexivity).
  exists st'. repeat split; assumption.
Defined.

(** ** Reading and resetting a session *)

Section AccessorFacts.

Variable W : World.
Variable context_clear_history : Context → Context.

(** X24. A path that is no directory gets the error result of each of the
    three methods ([[]], [[]], [False]); no record is made for it and the
    gate and the worker are left alone. *)
Theorem accessors_reject_invalid_path (p : string) (st : Emigo) :
  isdir W p = false →
  (∃ st1, get_history W p st = Ret [] st1
          ∧ sessions st1 = sessions st
          ∧ active_interaction_session st1 = active_interaction_session st
          ∧ llm_worker_process st1 = llm_worker_process st)
  ∧ (∃ st2, get_chat_files W p st = Ret [] st2
            ∧ sessions st2 = sessions st
            ∧ active_interaction_session st2 = active_interaction_session st
            ∧ llm_worker_process st2 = llm_worker_process st)
  ∧ (∃ st3, clear_history W context_clear_history p st = Ret false st3
            ∧ sessions st3 = sessions st
            ∧ active_interaction_session st3 = active_interaction_session st
            ∧ llm_worker_process st3 = llm_worker_process st).
Proof.
  intros Hdir.
  unfold get_history, get_chat_files, clear_history, _get_or_create_context.
  rewrite Hdir. msimpl. cbn.
  repeat split; eexists; (split; [reflexivity|]); repeat split.
Qed.

(** X25. [get_history] for a directory returns the stored history of the
    session (the empty one, with a record made, on first reference); the
    records of the other sessions are as before, and asking again gives
    the same answer and changes nothing. *)
Theorem get_history_reads_stored_history (p : string) (st : Emigo) :
  isdir W p = true →
  ∃ st',
    get_history W p st = Ret (default [] (history <$> sessions st !! p)) st'
    ∧ history <$> sessions st' !! p
      = Some (default [] (history <$> sessions st !! p))
    ∧ (∀ q, q ≠ p → sessions st' !! q = sessions st !! q)
    ∧ get_history W p st' = Ret (default [] (history <$> sessions st !! p)) st'.
Proof.
  intros Hdir. unfold get_history, _get_or_create_context. rewrite Hdir. msimpl.
  cbn. destruct (sessions st !! p) as [c|] eqn:Hc; cbn.
  - exists st. rewrite Hc. cbn. repeat split.
  - eexists. split; [reflexivity|]. cbn. rewrite lookup_insert_eq. cbn.
    repeat split. intros q Hq. now rewrite lookup_insert_ne by congruence.
Qed.

(** X26. [clear_history] is not gated: for a directory it applies
    [Context.clear_history] to the record of [p] and to no other, tells
    the front end to clear its buffer and returns [True], whether or not
    an interaction is active, for [p] or for another session; the
    binding, the worker and the queue are as before. *)
Theorem clear_history_is_not_gated (p : string) (st : Emigo) :
  isdir W p = true →
  ∃ st',
    clear_history W context_clear_history p st = Ret true st'
    ∧ sessions st' !! p
      = Some (context_clear_history
                (default (Ctx.new p true) (sessions st !! p)))
    ∧ (∀ q, q ≠ p → sessions st' !! q = sessions st !! q)
    ∧ active_interaction_session st' = active_interaction_session st
    ∧ llm_worker_process st' = llm_worker_process st
    ∧ worker_output_queue st' = worker_output_queue st
    ∧ ∃ path,
        emacs st'
        = emacs st
            ++ [eval_in_emacs "emigo--clear-local-buffer" [JStr path];
                message_emacs ("Cleared history for context: " ++ path)].
Proof.
  intros Hdir.
  unfold clear_history, _get_or_create_context, update_context. rewrite Hdir.
  msimpl. cbn. destruct (sessions st !! p) as [c|] eqn:Hc; cbn.
  - eexists. split; [reflexivity|]. cbn. rewrite lookup_alter_eq, Hc. cbn.
    split; [reflexivity|].
    split; [intros q Hq; now rewrite lookup_alter_ne by congruence|].
    repeat split. eexists. rewrite <- app_assoc. reflexivity.
  - eexists. split; [reflexivity|]. cbn. rewrite lookup_alter_eq, lookup_insert_eq.
    cbn. split; [reflexivity|].
    split; [intros q Hq;
            rewrite lookup_alter_ne, lookup_insert_ne by congruence; reflexivity|].
    repeat split. eexists. rewrite <- app_assoc. reflexivity.
Qed.

End AccessorFacts.

(** X24 on a path that is no directory. *)
Lemma accessors_reject_invalid_path_witness :
  ∃ st3,
    clear_history Demo.world Scenario.clear "/nowhere" Demo.busy_a = Ret false st3
    ∧ sessions st3 = sessions Demo.busy_a
    ∧ active_interaction_session st3 = active_interaction_session Demo.busy_a
    ∧ llm_worker_process st3 = llm_worker_process Demo.busy_a.
Proof.
  apply (accessors_reject_invalid_path Demo.world Scenario.clear "/nowhere"
           Demo.busy_a).
  vm_compute. reflexivity.
Defined.

(** X25 on the session of the running interaction. *)
Lemma get_history_reads_stored_history_witness :
  ∃ st',
    get_history Demo.world "/a" Demo.busy_a
    = Ret (default [] (history <$> sessions Demo.busy_a !! "/a")) st'
    ∧ history <$> sessions st' !! "/a"
      = Some (default [] (history <$> sessions Demo.busy_a !! "/a"))
    ∧ (∀ q, q ≠ "/a" → sessions st' !! q = sessions Demo.busy_a !! q)
    ∧ get_history Demo.world "/a" st'
      = Ret (default [] (history <$> sessions Demo.busy_a !! "/a")) st'.
Proof.
  apply (get_history_reads_stored_history Demo.world "/a" Demo.busy_a).
  vm_compute. reflexivity.
Defined.

(** X26 on the session of the running interaction. *)
Lemma clear_history_is_not_gated_witness :
  ∃ st',
    clear_history Demo.world Scenario.clear "/a" Demo.busy_a = Ret true st'
    ∧ stored_messages st' "/a" = Some []
    ∧ active_interaction_session st' = Some "/a".
Proof.
  destruct (clear_history_is_not_gated Demo.world Scenario.clear "/a" Demo.busy_a)
    as (st' & Hrun & Hc & _ & Hact & _); [vm_compute; reflexivity|].
  exists st'. split; [exact Hrun|]. unfold stored_messages.
  rewrite Hc, Hact. split; vm_compute; reflexivity.
Defined.
